(** * FinancialAudit: a shallow embedding of the ledger contract

    The contract [FinancialAudit] (Solidity 0.8.24) keeps a ledger of
    accounts and audit records whose values are stored as keccak256
    commitments.  This development embeds its storage, its modifiers and
    its external functions as a state-and-revert monad over finite maps,
    and proves the ledger properties of the specification against it.

    Conventions:
    - [uint256], [bytes32] and [address] values are integers [Z]
      (a [bytes32] is read big-endian, as [uint256(...)] does);
    - [bytes calldata] is a [list byte], [string calldata] a [string];
    - a Solidity [mapping] is a [gmap] read with the total lookup [!!!],
      so that a key never written reads as the all-zero struct;
    - a transaction is a function from the ledger to the ledger reached
      when it stopped, paired with its outcome. *)

From Stdlib Require Import ZArith List Strings.String Strings.Byte.
From stdpp Require Import base option list gmap.
Import ListNotations.
Open Scope Z_scope.

(** ** keccak256

    The EVM builtin, written out: Keccak-f[1600] with rate 1088 bits
    (136 bytes), pad10*1 with the original Keccak domain byte [0x01],
    256 bits of output.  The state is 25 lanes of 64 bits, lane [(x, y)]
    at index [x + 5 * y]. *)
Module Keccak.

Definition mask64 : Z := Z.ones 64.

Definition rotl64 (x : Z) (n : Z) : Z :=
  Z.land (Z.lor (Z.shiftl x n) (Z.shiftr x (64 - n))) mask64.

Definition lane (st : list Z) (x y : nat) : Z :=
  nth (x mod 5 + 5 * (y mod 5))%nat st 0.

Definition grid (f : nat -> nat -> Z) : list Z :=
  map (fun i => f (i mod 5)%nat (i / 5)%nat) (seq 0 25).

Definition rho_offsets : list Z :=
  [ 0;  1; 62; 28; 27;
   36; 44;  6; 55; 20;
    3; 10; 43; 25; 39;
   41; 45; 15; 21;  8;
   18;  2; 61; 56; 14].

Definition round_constants : list Z :=
  [0x0000000000000001; 0x0000000000008082; 0x800000000000808A; 0x8000000080008000;
   0x000000000000808B; 0x0000000080000001; 0x8000000080008081; 0x8000000000008009;
   0x000000000000008A; 0x0000000000000088; 0x0000000080008009; 0x000000008000000A;
   0x000000008000808B; 0x800000000000008B; 0x8000000000008089; 0x8000000000008003;
   0x8000000000008002; 0x8000000000000080; 0x000000000000800A; 0x800000008000000A;
   0x8000000080008081; 0x8000000000008080; 0x0000000080000001; 0x8000000080008008].

Definition theta (a : list Z) : list Z :=
  let c x := fold_left Z.lxor (map (lane a x) (seq 0 5)) 0 in
  let d x := Z.lxor (c (x + 4)%nat) (rotl64 (c (x + 1)%nat) 1) in
  grid (fun x y => Z.lxor (lane a x y) (d x)).

(** rho and pi in one pass: lane [(x, y)] of the result is lane
    [(x0, x)] of the input rotated, where [x0 = x + 3 y mod 5]. *)
Definition rho_pi (a : list Z) : list Z :=
  grid (fun x y =>
    let x0 := ((x + 3 * y) mod 5)%nat in
    rotl64 (lane a x0 x) (nth (x0 + 5 * x)%nat rho_offsets 0)).

Definition chi (b : list Z) : list Z :=
  grid (fun x y =>
    Z.lxor (lane b x y)
           (Z.land (Z.lxor (lane b (x + 1) y) mask64) (lane b (x + 2) y))).

Definition iota (rc : Z) (a : list Z) : list Z :=
  match a with
  | a0 :: rest => Z.lxor a0 rc :: rest
  | [] => []
  end.

Definition round (a : list Z) (rc : Z) : list Z :=
  iota rc (chi (rho_pi (theta a))).

Definition keccak_f (a : list Z) : list Z :=
  fold_left round round_constants a.

Definition rate : nat := 136.

Definition pad (msg : list Z) : list Z :=
  let q := (rate - List.length msg mod rate)%nat in
  match q with
  | 1%nat => msg ++ [0x81]
  | _ => msg ++ [0x01] ++ repeat 0 (q - 2) ++ [0x80]
  end.

Fixpoint le_word (bs : list Z) : Z :=
  match bs with
  | [] => 0
  | b :: bs' => b + 256 * le_word bs'
  end.

Fixpoint lanes_of (n : nat) (bs : list Z) : list Z :=
  match n with
  | O => []
  | S n' => le_word (firstn 8 bs) :: lanes_of n' (skipn 8 bs)
  end.

Fixpoint xor_into (st blk : list Z) : list Z :=
  match st, blk with
  | s :: st', b :: blk' => Z.lxor s b :: xor_into st' blk'
  | _, _ => st
  end.

Fixpoint absorb (blocks : nat) (st : list Z) (bs : list Z) : list Z :=
  match blocks with
  | O => st
  | S n =>
      absorb n (keccak_f (xor_into st (lanes_of 17 (firstn rate bs))))
             (skipn rate bs)
  end.

Definition be_of_le64 (w : Z) : Z :=
  fold_left (fun acc i => acc * 256 + Z.land (Z.shiftr w (8 * Z.of_nat i)) 255)
            (seq 0 8) 0.

Definition squeeze (st : list Z) : Z :=
  fold_left (fun acc w => acc * 2 ^ 64 + be_of_le64 w) (firstn 4 st) 0.

Definition hash (msg : list Z) : Z :=
  let p := pad msg in
  squeeze (absorb (List.length p / rate) (repeat 0 25) p).

End Keccak.

Definition byteZ (b : byte) : Z := Z.of_N (Byte.to_N b).

(** [keccak256(data)], the digest read as a 256-bit big-endian number. *)
Definition keccak256 (data : list byte) : Z := Keccak.hash (map byteZ data).

(** ** abi.encodePacked *)

Definition byte_of_Z (x : Z) : byte :=
  match Byte.of_N (Z.to_N (x mod 256)) with
  | Some b => b
  | None => "000"%byte
  end.

(** The [n] low bytes of [x], most significant first. *)
Fixpoint be_bytes (n : nat) (x : Z) : list byte :=
  match n with
  | O => []
  | S n' => byte_of_Z (Z.shiftr x (8 * Z.of_nat n')) :: be_bytes n' x
  end.

Definition encode_uint256 (x : Z) : list byte := be_bytes 32 x.
Definition encode_bytes32 (x : Z) : list byte := be_bytes 32 x.
Definition encode_address (x : Z) : list byte := be_bytes 20 x.
Definition encode_string (s : string) : list byte := list_byte_of_string s.

Definition UINT256_MAX : Z := 2 ^ 256 - 1.

(** Hashes and encodings are never unfolded when reasoning about the
    ledger: the proofs only use that they are functions. *)
#[global] Opaque keccak256 be_bytes UINT256_MAX.

(** ** Storage *)

(** [struct PrivateAccount] *)
Record PrivateAccount := {
  encryptedBalance : Z;
  encryptedTransactions : Z;
  isActive : bool;
  lastUpdated : Z;
  accountOwner : Z;
  accountType : Z
}.

(** [struct AuditRecord] *)
Record AuditRecord := {
  accountId : Z;
  auditedBalance : Z;
  discrepancyFlag : Z;
  auditTimestamp : Z;
  isCompleted : bool;
  auditType : Z
}.

(** What a mapping slot that was never written reads as. *)
#[global] Instance PrivateAccount_inhabited : Inhabited PrivateAccount :=
  populate {| encryptedBalance := 0; encryptedTransactions := 0;
              isActive := false; lastUpdated := 0;
              accountOwner := 0; accountType := 0 |}.

#[global] Instance AuditRecord_inhabited : Inhabited AuditRecord :=
  populate {| accountId := 0; auditedBalance := 0; discrepancyFlag := 0;
              auditTimestamp := 0; isCompleted := false; auditType := 0 |}.

Inductive Event :=
| AccountCreated (id : Z) (owner : Z) (accountTypeHash : Z)
| BalanceUpdated (id : Z) (timestamp : Z) (updateTypeHash : Z)
| AuditInitiated (account : Z) (audit : Z) (auditTypeHash : Z)
| AuditCompleted (account : Z) (audit : Z)
| AuditorTransferred (previousAuditor : Z) (newAuditor : Z).

(** The contract's storage, and the log of the events it emitted. *)
Record Ledger := {
  auditor : Z;
  totalAccounts : Z;
  accounts : gmap Z PrivateAccount;
  auditRecords : gmap Z AuditRecord;
  userAccounts : gmap Z (list Z);
  accountAudits : gmap Z (list Z);
  events : list Event
}.

(** [msg.sender], [block.timestamp], [block.prevrandao] *)
Record Env := {
  msg_sender : Z;
  block_timestamp : Z;
  block_prevrandao : Z
}.

(** ** Field updates

    Solidity assigns to one storage field at a time; each assignment is
    one of these. *)

Definition set_encryptedBalance (v : Z) (a : PrivateAccount) : PrivateAccount :=
  {| encryptedBalance := v;
     encryptedTransactions := encryptedTransactions a;
     isActive := isActive a; lastUpdated := lastUpdated a;
     accountOwner := accountOwner a; accountType := accountType a |}.

Definition set_encryptedTransactions (v : Z) (a : PrivateAccount) : PrivateAccount :=
  {| encryptedBalance := encryptedBalance a;
     encryptedTransactions := v;
     isActive := isActive a; lastUpdated := lastUpdated a;
     accountOwner := accountOwner a; accountType := accountType a |}.

Definition set_isActive (v : bool) (a : PrivateAccount) : PrivateAccount :=
  {| encryptedBalance := encryptedBalance a;
     encryptedTransactions := encryptedTransactions a;
     isActive := v; lastUpdated := lastUpdated a;
     accountOwner := accountOwner a; accountType := accountType a |}.

Definition set_lastUpdated (v : Z) (a : PrivateAccount) : PrivateAccount :=
  {| encryptedBalance := encryptedBalance a;
     encryptedTransactions := encryptedTransactions a;
     isActive := isActive a; lastUpdated := v;
     accountOwner := accountOwner a; accountType := accountType a |}.

Definition set_discrepancyFlag (v : Z) (r : AuditRecord) : AuditRecord :=
  {| accountId := accountId r; auditedBalance := auditedBalance r;
     discrepancyFlag := v; auditTimestamp := auditTimestamp r;
     isCompleted := isCompleted r; auditType := auditType r |}.

Definition set_isCompleted (v : bool) (r : AuditRecord) : AuditRecord :=
  {| accountId := accountId r; auditedBalance := auditedBalance r;
     discrepancyFlag := discrepancyFlag r; auditTimestamp := auditTimestamp r;
     isCompleted := v; auditType := auditType r |}.

Definition set_auditor (v : Z) (s : Ledger) : Ledger :=
  {| auditor := v; totalAccounts := totalAccounts s; accounts := accounts s;
     auditRecords := auditRecords s; userAccounts := userAccounts s;
     accountAudits := accountAudits s; events := events s |}.

Definition set_totalAccounts (v : Z) (s : Ledger) : Ledger :=
  {| auditor := auditor s; totalAccounts := v; accounts := accounts s;
     auditRecords := auditRecords s; userAccounts := userAccounts s;
     accountAudits := accountAudits s; events := events s |}.

Definition set_accounts (v : gmap Z PrivateAccount) (s : Ledger) : Ledger :=
  {| auditor := auditor s; totalAccounts := totalAccounts s; accounts := v;
     auditRecords := auditRecords s; userAccounts := userAccounts s;
     accountAudits := accountAudits s; events := events s |}.

Definition set_auditRecords (v : gmap Z AuditRecord) (s : Ledger) : Ledger :=
  {| auditor := auditor s; totalAccounts := totalAccounts s; accounts := accounts s;
     auditRecords := v; userAccounts := userAccounts s;
     accountAudits := accountAudits s; events := events s |}.

Definition set_userAccounts (v : gmap Z (list Z)) (s : Ledger) : Ledger :=
  {| auditor := auditor s; totalAccounts := totalAccounts s; accounts := accounts s;
     auditRecords := auditRecords s; userAccounts := v;
     accountAudits := accountAudits s; events := events s |}.

Definition set_accountAudits (v : gmap Z (list Z)) (s : Ledger) : Ledger :=
  {| auditor := auditor s; totalAccounts := totalAccounts s; accounts := accounts s;
     auditRecords := auditRecords s; userAccounts := userAccounts s;
     accountAudits := v; events := events s |}.

Definition set_events (v : list Event) (s : Ledger) : Ledger :=
  {| auditor := auditor s; totalAccounts := totalAccounts s; accounts := accounts s;
     auditRecords := auditRecords s; userAccounts := userAccounts s;
     accountAudits := accountAudits s; events := v |}.

(** ** Transactions *)

(** One constructor per [require] message of the contract, and the
    arithmetic panic of checked [++]. *)
Inductive RevertReason :=
| NotAuditor                  (* caller is not the auditor *)
| NotAccountOwner             (* caller is not account owner *)
| InvalidAccountId            (* invalid account ID *)
| AccountNotActive            (* account is not active *)
| AuditDoesNotExist           (* audit does not exist *)
| AuditAlreadyDone            (* audit already completed *)
| NewAuditorZero              (* new auditor cannot be zero address *)
| NewAuditorCurrent           (* new auditor cannot be current auditor *)
| BalanceAccessDenied         (* unauthorized access to encrypted balance *)
| TransactionsAccessDenied    (* unauthorized access to encrypted transactions *)
| ArithmeticOverflow.         (* Panic(0x11) *)

Definition reason_message (r : RevertReason) : string :=
  match r with
  | NotAuditor => "FinancialAudit: caller is not the auditor"
  | NotAccountOwner => "FinancialAudit: caller is not account owner"
  | InvalidAccountId => "FinancialAudit: invalid account ID"
  | AccountNotActive => "FinancialAudit: account is not active"
  | AuditDoesNotExist => "FinancialAudit: audit does not exist"
  | AuditAlreadyDone => "FinancialAudit: audit already completed"
  | NewAuditorZero => "FinancialAudit: new auditor cannot be zero address"
  | NewAuditorCurrent => "FinancialAudit: new auditor cannot be current auditor"
  | BalanceAccessDenied => "FinancialAudit: unauthorized access to encrypted balance"
  | TransactionsAccessDenied =>
      "FinancialAudit: unauthorized access to encrypted transactions"
  | ArithmeticOverflow => "panic: arithmetic overflow (0x11)"
  end.

(** The error taxonomy of the specification. *)
Inductive ErrorKind :=
| Unauthorized | InvalidAccount | InactiveAccount
| AuditNotFound | AuditAlreadyCompleted | InvalidAuditor | Panic.

Definition error_kind (r : RevertReason) : ErrorKind :=
  match r with
  | NotAuditor | NotAccountOwner
  | BalanceAccessDenied | TransactionsAccessDenied => Unauthorized
  | InvalidAccountId => InvalidAccount
  | AccountNotActive => InactiveAccount
  | AuditDoesNotExist => AuditNotFound
  | AuditAlreadyDone => AuditAlreadyCompleted
  | NewAuditorZero | NewAuditorCurrent => InvalidAuditor
  | ArithmeticOverflow => Panic
  end.

Inductive Outcome (A : Type) :=
| Return (a : A)
| Revert (r : RevertReason).
Arguments Return {A} a.
Arguments Revert {A} r.

(** A transaction body: from the ledger it starts in to the ledger it
    had reached when it returned or reverted, and how it ended.  The
    ledger paired with a [Revert] is the one the failing [require] saw;
    [execute] below discards it, as the EVM does. *)
Definition Tx (A : Type) : Type := Ledger -> Ledger * Outcome A.

Definition ret {A} (a : A) : Tx A := fun s => (s, Return a).

Definition bind {A B} (m : Tx A) (k : A -> Tx B) : Tx B :=
  fun s =>
    match m s with
    | (s', Return a) => k a s'
    | (s', Revert r) => (s', Revert r)
    end.

Notation "'do' x <- m ; k" := (bind m (fun x => k))
  (at level 10, x name, m at level 100, k at level 200,
   format "'[v' 'do'  x  <-  m ; '/' k ']'").

Definition gets {A} (f : Ledger -> A) : Tx A := fun s => (s, Return (f s)).

Definition modify (f : Ledger -> Ledger) : Tx unit := fun s => (f s, Return tt).

Definition require (cond : bool) (r : RevertReason) : Tx unit :=
  fun s => (s, if cond then Return tt else Revert r).

Definition emit (e : Event) : Tx unit :=
  modify (fun s => set_events (events s ++ [e]) s).

(** [accounts[id].field = v] and [auditRecords[id].field = v] *)
Definition update_account (id : Z) (f : PrivateAccount -> PrivateAccount) : Tx unit :=
  modify (fun s => set_accounts (<[id := f (accounts s !!! id)]> (accounts s)) s).

Definition update_auditRecord (id : Z) (f : AuditRecord -> AuditRecord) : Tx unit :=
  modify (fun s => set_auditRecords (<[id := f (auditRecords s !!! id)]> (auditRecords s)) s).

(** ** Modifiers *)

Definition onlyAuditor (env : Env) : Tx unit :=
  do a <- gets auditor;
  require (msg_sender env =? a) NotAuditor.

Definition onlyAccountOwner (env : Env) (accountId : Z) : Tx unit :=
  do owner <- gets (fun s => accountOwner (accounts s !!! accountId));
  require (owner =? msg_sender env) NotAccountOwner.

Definition validAccount (accountId : Z) : Tx unit :=
  do n <- gets totalAccounts;
  require ((0 <? accountId) && (accountId <=? n)) InvalidAccountId.

Definition activeAccount (accountId : Z) : Tx unit :=
  do active <- gets (fun s => isActive (accounts s !!! accountId));
  require active AccountNotActive.

(** ** The contract *)

(** [constructor()] *)
Definition constructor (env : Env) : Ledger :=
  {| auditor := msg_sender env; totalAccounts := 0;
     accounts := ∅; auditRecords := ∅; userAccounts := ∅;
     accountAudits := ∅; events := [] |}.

Definition createAccount (env : Env) (encryptedBalance : list byte)
    (accountType : string) : Tx Z :=
  let balanceHash := keccak256 encryptedBalance in
  let accountTypeHash := keccak256 (encode_string accountType) in
  (* totalAccounts++, checked *)
  do n <- gets totalAccounts;
  do _ <- require (n + 1 <=? UINT256_MAX) ArithmeticOverflow;
  do _ <- modify (set_totalAccounts (n + 1));
  do accountId <- gets totalAccounts;
  do _ <- modify (fun s =>
    set_accounts
      (<[accountId :=
          {| encryptedBalance := balanceHash;
             encryptedTransactions := keccak256 (encode_uint256 0);
             isActive := true;
             lastUpdated := block_timestamp env;
             accountOwner := msg_sender env;
             accountType := accountTypeHash |}]> (accounts s)) s);
  do _ <- modify (fun s =>
    set_userAccounts
      (<[msg_sender env := (userAccounts s !!! msg_sender env) ++ [accountId]]>
         (userAccounts s)) s);
  do _ <- emit (AccountCreated accountId (msg_sender env) accountTypeHash);
  ret accountId.

Definition updateBalance (env : Env) (accountId : Z)
    (encryptedNewBalance : list byte) (updateType : string) : Tx unit :=
  do _ <- validAccount accountId;
  do _ <- onlyAccountOwner env accountId;
  do _ <- activeAccount accountId;
  let newBalanceHash := keccak256 encryptedNewBalance in
  let updateTypeHash := keccak256 (encode_string updateType) in
  do _ <- update_account accountId (set_encryptedBalance newBalanceHash);
  do _ <- update_account accountId (set_lastUpdated (block_timestamp env));
  do currentTxCount <- gets (fun s => encryptedTransactions (accounts s !!! accountId));
  let newTxCount :=
    keccak256 (encode_bytes32 currentTxCount ++ encode_uint256 1) in
  do _ <- update_account accountId (set_encryptedTransactions newTxCount);
  emit (BalanceUpdated accountId (block_timestamp env) updateTypeHash).

(** [uint256(keccak256(abi.encodePacked(block.timestamp, block.prevrandao,
    accountId, msg.sender)))] *)
Definition derive_auditId (env : Env) (account : Z) : Z :=
  keccak256 (encode_uint256 (block_timestamp env)
             ++ encode_uint256 (block_prevrandao env)
             ++ encode_uint256 account
             ++ encode_address (msg_sender env)).

Definition initiateAudit (env : Env) (accountId : Z) (auditType : string) : Tx Z :=
  do _ <- onlyAuditor env;
  do _ <- validAccount accountId;
  do _ <- activeAccount accountId;
  let auditId := derive_auditId env accountId in
  let auditTypeHash := keccak256 (encode_string auditType) in
  do auditBalance <- gets (fun s => encryptedBalance (accounts s !!! accountId));
  let defaultFlag := keccak256 (encode_uint256 0) in
  do _ <- modify (fun s =>
    set_auditRecords
      (<[auditId :=
          {| accountId := accountId;
             auditedBalance := auditBalance;
             discrepancyFlag := defaultFlag;
             auditTimestamp := block_timestamp env;
             isCompleted := false;
             auditType := auditTypeHash |}]> (auditRecords s)) s);
  do _ <- modify (fun s =>
    set_accountAudits
      (<[accountId := (accountAudits s !!! accountId) ++ [auditId]]>
         (accountAudits s)) s);
  do _ <- emit (AuditInitiated accountId auditId auditTypeHash);
  ret auditId.

Definition completeAudit (env : Env) (auditId : Z) (encryptedFlag : list byte)
    : Tx unit :=
  do _ <- onlyAuditor env;
  do account <- gets (fun s => accountId (auditRecords s !!! auditId));
  do _ <- require (negb (account =? 0)) AuditDoesNotExist;
  do completed <- gets (fun s => isCompleted (auditRecords s !!! auditId));
  do _ <- require (negb completed) AuditAlreadyDone;
  let flagHash := keccak256 encryptedFlag in
  do _ <- update_auditRecord auditId (set_discrepancyFlag flagHash);
  do _ <- update_auditRecord auditId (set_isCompleted true);
  do account' <- gets (fun s => accountId (auditRecords s !!! auditId));
  emit (AuditCompleted account' auditId).

Definition getAccountInfo (accountId : Z) : Tx (bool * Z * Z * Z) :=
  do _ <- validAccount accountId;
  do account <- gets (fun s => accounts s !!! accountId);
  ret (isActive account, lastUpdated account, accountOwner account,
       accountType account).

Definition getUserAccounts (user : Z) : Tx (list Z) :=
  gets (fun s => userAccounts s !!! user).

Definition getEncryptedBalance (env : Env) (accountId : Z) : Tx Z :=
  do _ <- validAccount accountId;
  do owner <- gets (fun s => accountOwner (accounts s !!! accountId));
  do a <- gets auditor;
  do _ <- require ((msg_sender env =? owner) || (msg_sender env =? a))
                  BalanceAccessDenied;
  gets (fun s => encryptedBalance (accounts s !!! accountId)).

Definition getEncryptedTransactions (env : Env) (accountId : Z) : Tx Z :=
  do _ <- validAccount accountId;
  do owner <- gets (fun s => accountOwner (accounts s !!! accountId));
  do a <- gets auditor;
  do _ <- require ((msg_sender env =? owner) || (msg_sender env =? a))
                  TransactionsAccessDenied;
  gets (fun s => encryptedTransactions (accounts s !!! accountId)).

Definition getAuditRecord (env : Env) (auditId : Z) : Tx (Z * Z * bool * Z) :=
  do _ <- onlyAuditor env;
  do account <- gets (fun s => accountId (auditRecords s !!! auditId));
  do _ <- require (negb (account =? 0)) AuditDoesNotExist;
  do record <- gets (fun s => auditRecords s !!! auditId);
  ret (accountId record, auditTimestamp record, isCompleted record,
       auditType record).

Definition getAuditFlag (env : Env) (auditId : Z) : Tx Z :=
  do _ <- onlyAuditor env;
  do account <- gets (fun s => accountId (auditRecords s !!! auditId));
  do _ <- require (negb (account =? 0)) AuditDoesNotExist;
  gets (fun s => discrepancyFlag (auditRecords s !!! auditId)).

Definition getAccountAudits (accountId : Z) : Tx (list Z) :=
  do _ <- validAccount accountId;
  gets (fun s => accountAudits s !!! accountId).

Definition deactivateAccount (env : Env) (accountId : Z) : Tx unit :=
  do _ <- validAccount accountId;
  do _ <- onlyAccountOwner env accountId;
  update_account accountId (set_isActive false).

Definition reactivateAccount (env : Env) (accountId : Z) : Tx unit :=
  do _ <- validAccount accountId;
  do _ <- onlyAccountOwner env accountId;
  update_account accountId (set_isActive true).

Definition transferAuditor (env : Env) (newAuditor : Z) : Tx unit :=
  do _ <- onlyAuditor env;
  do _ <- require (negb (newAuditor =? 0)) NewAuditorZero;
  do current <- gets auditor;
  do _ <- require (negb (newAuditor =? current)) NewAuditorCurrent;
  do previousAuditor <- gets auditor;
  do _ <- modify (set_auditor newAuditor);
  emit (AuditorTransferred previousAuditor newAuditor).

Definition getTotalAccounts : Tx Z := gets totalAccounts.

(** The getter of [address public auditor]. *)
Definition getAuditor : Tx Z := gets auditor.

(** ** Calls *)

(** The external interface: one constructor per function. *)
Inductive Call :=
| CreateAccount (encryptedBalance : list byte) (accountType : string)
| UpdateBalance (account : Z) (encryptedNewBalance : list byte) (updateType : string)
| InitiateAudit (account : Z) (auditType : string)
| CompleteAudit (audit : Z) (encryptedFlag : list byte)
| DeactivateAccount (account : Z)
| ReactivateAccount (account : Z)
| TransferAuditor (newAuditor : Z)
| GetAccountInfo (account : Z)
| GetUserAccounts (user : Z)
| GetEncryptedBalance (account : Z)
| GetEncryptedTransactions (account : Z)
| GetAuditRecord (audit : Z)
| GetAuditFlag (audit : Z)
| GetAccountAudits (account : Z)
| GetTotalAccounts
| GetAuditor.

Inductive Value :=
| VUnit
| VUint (n : Z)
| VBytes32 (h : Z)
| VAddress (a : Z)
| VUintArray (l : list Z)
| VAccountInfo (info : bool * Z * Z * Z)
| VAuditRecord (info : Z * Z * bool * Z).

Definition fmap_tx {A B} (f : A -> B) (m : Tx A) : Tx B :=
  do a <- m; ret (f a).

Definition dispatch (env : Env) (c : Call) : Tx Value :=
  match c with
  | CreateAccount b t => fmap_tx VUint (createAccount env b t)
  | UpdateBalance a b t => fmap_tx (fun _ => VUnit) (updateBalance env a b t)
  | InitiateAudit a t => fmap_tx VUint (initiateAudit env a t)
  | CompleteAudit k f => fmap_tx (fun _ => VUnit) (completeAudit env k f)
  | DeactivateAccount a => fmap_tx (fun _ => VUnit) (deactivateAccount env a)
  | ReactivateAccount a => fmap_tx (fun _ => VUnit) (reactivateAccount env a)
  | TransferAuditor n => fmap_tx (fun _ => VUnit) (transferAuditor env n)
  | GetAccountInfo a => fmap_tx VAccountInfo (getAccountInfo a)
  | GetUserAccounts u => fmap_tx VUintArray (getUserAccounts u)
  | GetEncryptedBalance a => fmap_tx VBytes32 (getEncryptedBalance env a)
  | GetEncryptedTransactions a => fmap_tx VBytes32 (getEncryptedTransactions env a)
  | GetAuditRecord k => fmap_tx VAuditRecord (getAuditRecord env k)
  | GetAuditFlag k => fmap_tx VBytes32 (getAuditFlag env k)
  | GetAccountAudits a => fmap_tx VUintArray (getAccountAudits a)
  | GetTotalAccounts => fmap_tx VUint getTotalAccounts
  | GetAuditor => fmap_tx VAddress getAuditor
  end.

(** What the chain does with a transaction body: a revert rolls the
    ledger back to where the call started. *)
Definition execute {A} (m : Tx A) (s : Ledger) : Ledger * Outcome A :=
  match m s with
  | (s', Return a) => (s', Return a)
  | (_, Revert r) => (s, Revert r)
  end.

Definition call (env : Env) (c : Call) (s : Ledger) : Ledger * Outcome Value :=
  execute (dispatch env c) s.

(** The ledgers the contract can be in: the one its constructor leaves,
    and those reached from it by calls. *)
Inductive reachable : Ledger -> Prop :=
| reachable_deploy env : reachable (constructor env)
| reachable_call env c s : reachable s -> reachable (fst (call env c s)).

(** A trace of calls, run in order; each call's outcome is recorded. *)
Fixpoint run (s : Ledger) (tr : list (Env * Call)) : Ledger * list (Outcome Value) :=
  match tr with
  | [] => (s, [])
  | (env, c) :: tr' =>
      let (s1, o) := call env c s in
      let (s2, os) := run s1 tr' in
      (s2, o :: os)
  end.

(** ** Predicates of the specification *)

(** [accountId > 0 && accountId <= totalAccounts] *)
Definition validAccountId (s : Ledger) (id : Z) : bool :=
  (0 <? id) && (id <=? totalAccounts s).

(** [auditRecords[auditId].accountId != 0], the existence test of
    [completeAudit], [getAuditRecord] and [getAuditFlag]. *)
Definition auditExists (s : Ledger) (k : Z) : bool :=
  negb (accountId (auditRecords s !!! k) =? 0).

(** An [initiateAudit] call that derives the audit id [k]. *)
Definition rederives (k : Z) (ec : Env * Call) : bool :=
  match ec with
  | (env, InitiateAudit a _) => derive_auditId env a =? k
  | _ => false
  end.

(** The audit id [k] was handed out by a successful [initiateAudit]. *)
Definition initiated (s : Ledger) (k : Z) : Prop :=
  exists a t, AuditInitiated a k t ∈ events s.

(** The ids returned by the successful [createAccount] calls of a trace,
    in call order. *)
Fixpoint created_ids (tr : list (Env * Call)) (outs : list (Outcome Value)) : list Z :=
  match tr, outs with
  | (_, CreateAccount _ _) :: tr', Return (VUint id) :: outs' =>
      id :: created_ids tr' outs'
  | _ :: tr', _ :: outs' => created_ids tr' outs'
  | _, _ => []
  end.

(** The record [initiateAudit] writes. *)
Definition fresh_record (env : Env) (s : Ledger) (a : Z) (t : string) : AuditRecord :=
  {| accountId := a;
     auditedBalance := encryptedBalance (accounts s !!! a);
     discrepancyFlag := keccak256 (encode_uint256 0);
     auditTimestamp := block_timestamp env;
     isCompleted := false;
     auditType := keccak256 (encode_string t) |}.

(** ** A concrete run

    The deployment of the test suite: the first signer deploys and is
    the auditor, the second owns account 1, the third is a stranger. *)
Module Scenario.

Definition theAuditor : Z := 0xf39Fd6e51aad88F6F4ce6aB8827279cffFb92266.
Definition theOwner : Z := 0x70997970C51812dc3A010C7d01b50e0d17dc79C8.
Definition stranger : Z := 0x3C44CdDdB6a900fa2b585dd299e03d12FA4293BC.

(** A call by [who] in the block with timestamp [ts]. *)
Definition in_block (ts : Z) (who : Z) : Env :=
  {| msg_sender := who; block_timestamp := ts;
     block_prevrandao := 0x5eed + ts |}.

Definition bytes_1000 : list byte := list_byte_of_string "1000".
Definition bytes_1500 : list byte := list_byte_of_string "1500".
Definition flag_0 : list byte := list_byte_of_string "0".

(** deployed *)
Definition ledger0 : Ledger := constructor (in_block 100 theAuditor).

(** the owner has created account 1 *)
Definition ledger1 : Ledger :=
  fst (call (in_block 101 theOwner) (CreateAccount bytes_1000 "personal") ledger0).

(** the auditor has initiated an audit of account 1 in block 102 *)
Definition ledger2 : Ledger :=
  fst (call (in_block 102 theAuditor) (InitiateAudit 1 "compliance") ledger1).

Definition audit1 : Z := derive_auditId (in_block 102 theAuditor) 1.

(** the auditor has completed that audit, still in block 102 *)
Definition ledger3 : Ledger :=
  fst (call (in_block 102 theAuditor) (CompleteAudit audit1 flag_0) ledger2).

(** the owner has updated the balance after the audit began, in block 102 *)
Definition ledger2u : Ledger :=
  fst (call (in_block 102 theOwner) (UpdateBalance 1 bytes_1500 "deposit") ledger2).

(** the owner has deactivated account 1 after the audit began *)
Definition ledger2d : Ledger :=
  fst (call (in_block 103 theOwner) (DeactivateAccount 1) ledger2).

(** a second audit of account 1 is initiated in block 102, after the
    first was completed *)
Definition ledger4 : Ledger :=
  fst (call (in_block 102 theAuditor) (InitiateAudit 1 "financial") ledger3).

(** a second audit of account 1 is initiated in block 102, after the
    balance was updated *)
Definition ledger4u : Ledger :=
  fst (call (in_block 102 theAuditor) (InitiateAudit 1 "compliance") ledger2u).

(** three accounts are created by two callers, with a failing update
    and an audit in between *)
Definition creations : list (Env * Call) :=
  [ (in_block 101 theOwner, CreateAccount bytes_1000 "personal");
    (in_block 101 stranger, UpdateBalance 1 bytes_1500 "deposit");
    (in_block 102 stranger, CreateAccount bytes_1500 "company");
    (in_block 102 theAuditor, InitiateAudit 2 "security");
    (in_block 103 theOwner, CreateAccount [] "personal") ].

(** the auditor has handed the role to the stranger, in block 105 *)
Definition ledger5 : Ledger :=
  fst (call (in_block 105 theAuditor) (TransferAuditor stranger) ledger2).

(** a trace over the ledger with one account: an update, an audit, a
    transfer of the role, a second account, a deactivation *)
Definition busy_trace : list (Env * Call) :=
  [ (in_block 102 theOwner, UpdateBalance 1 bytes_1500 "deposit");
    (in_block 103 theAuditor, InitiateAudit 1 "financial");
    (in_block 104 theAuditor, TransferAuditor stranger);
    (in_block 105 stranger, CreateAccount bytes_1000 "company");
    (in_block 106 theOwner, DeactivateAccount 1) ].

End Scenario.

(** ** Reading the ledger and its log *)

(** The bytes [initiateAudit] hashes into the audit id. *)
Definition audit_preimage (env : Env) (account : Z) : list byte :=
  encode_uint256 (block_timestamp env)
  ++ encode_uint256 (block_prevrandao env)
  ++ encode_uint256 account
  ++ encode_address (msg_sender env).

(** The number a byte string spells, most significant byte first. *)
Definition be_value (bs : list byte) : Z :=
  fold_left (fun acc b => acc * 256 + byteZ b) bs 0.

(** The ranges of the Solidity types. *)
Definition is_uint256 (x : Z) : Prop := 0 <= x <= UINT256_MAX.
Definition is_address (x : Z) : Prop := 0 <= x < 2 ^ 160.

Definition env_in_range (env : Env) : Prop :=
  is_address (msg_sender env)
  /\ is_uint256 (block_timestamp env)
  /\ is_uint256 (block_prevrandao env).

(** [encryptedTransactions] after [n] balance updates: the hash of
    [uint256(0)], chained [n] times with [uint256(1)]. *)
Definition tx_chain (n : nat) : Z :=
  Nat.iter n (fun h => keccak256 (encode_bytes32 h ++ encode_uint256 1))
           (keccak256 (encode_uint256 0)).

(** How many [BalanceUpdated] events the log holds for account [id]. *)
Definition updates_logged (id : Z) (evs : list Event) : nat :=
  length (List.filter
            (fun e => match e with BalanceUpdated i _ _ => i =? id | _ => false end)
            evs).

(** The audit ids the log announces for account [a], oldest first. *)
Definition audits_logged (a : Z) (evs : list Event) : list Z :=
  flat_map (fun e => match e with
                     | AuditInitiated a' k _ => if a' =? a then [k] else []
                     | _ => []
                     end) evs.

(** The accounts the log announces, oldest first: id, owner, type. *)
Definition creations_logged (evs : list Event) : list (Z * Z * Z) :=
  flat_map (fun e => match e with
                     | AccountCreated i o t => [(i, o, t)]
                     | _ => []
                     end) evs.

(** The auditor according to the log: the deployer, then the target of
    each transfer in turn. *)
Definition auditor_logged (deployer : Z) (evs : list Event) : Z :=
  fold_left (fun a e => match e with AuditorTransferred _ n => n | _ => a end)
            evs deployer.

(** The ids in range whose stored owner is [u], in increasing order. *)
Definition owned_by (s : Ledger) (u : Z) : list Z :=
  List.filter (fun id => accountOwner (accounts s !!! id) =? u)
              (seqZ 1 (totalAccounts s)).

(** The flag [initiateAudit] stores: no discrepancy. *)
Definition default_flag : Z := keccak256 (encode_uint256 0).

(** The functions that carry the modifier [onlyAuditor]. *)
Definition has_onlyAuditor (c : Call) : bool :=
  match c with
  | InitiateAudit _ _ | CompleteAudit _ _ | TransferAuditor _
  | GetAuditRecord _ | GetAuditFlag _ => true
  | _ => false
  end.

(** * Proofs *)

(** ** Unfolding transactions *)

Ltac tx_red t :=
  eval cbv beta iota zeta delta
    [call execute dispatch fmap_tx
     createAccount updateBalance initiateAudit completeAudit
     getAccountInfo getUserAccounts getEncryptedBalance getEncryptedTransactions
     getAuditRecord getAuditFlag getAccountAudits deactivateAccount
     reactivateAccount transferAuditor getTotalAccounts getAuditor
     onlyAuditor onlyAccountOwner validAccount activeAccount
     update_account update_auditRecord emit
     bind ret gets modify require fst snd] in t.

Ltac tx_unfold :=
  match goal with |- ?G => let G' := tx_red G in change G' end.

Ltac tx_unfold_in H :=
  let T := type of H in let T' := tx_red T in change T' in H.

(** Split on the first undecided [require] (or other test). *)
Ltac tx_case :=
  match goal with
  | |- context [if ?b then _ else _] => destruct b eqn:?; cbv beta iota
  end.

Ltac tx_case_in H :=
  match type of H with
  | context [if ?b then _ else _] => destruct b eqn:?; cbv beta iota in H
  end.

(** Unfold the call in the goal and split on every [require]. *)
Ltac tx_cases := tx_unfold; repeat tx_case.

Ltac tx_cases_in H := tx_unfold_in H; repeat tx_case_in H.

(** A failing [require] has seen the ledger the call started in. *)
Lemma revert_before_write env c s s' r :
  dispatch env c s = (s', Revert r) -> s' = s.
Proof.
  revert s' r. destruct c; tx_cases; congruence.
Qed.

Lemma call_revert_same env c s r :
  snd (call env c s) = Revert r -> fst (call env c s) = s.
Proof.
  unfold call, execute. destruct (dispatch env c s) as [s' [v|r']]; simpl; done.
Qed.

(** ** What a call does to one audit record *)

(** A call that is not an [initiateAudit] deriving [k] leaves the slot
    [k] of [auditRecords] alone, unless it is the [completeAudit] that
    completes it. *)
Lemma call_record_cases env c s k :
  rederives k (env, c) = false ->
  auditRecords (fst (call env c s)) !! k = auditRecords s !! k
  \/ exists f,
       c = CompleteAudit k f
       /\ auditExists s k = true
       /\ isCompleted (auditRecords s !!! k) = false
       /\ auditRecords (fst (call env c s)) !! k
          = Some (set_isCompleted true
                    (set_discrepancyFlag (keccak256 f) (auditRecords s !!! k))).
Proof.
  intros Hr. destruct c; simpl in Hr; tx_cases; simpl; auto.
  - left. apply lookup_insert_ne. apply Z.eqb_neq. exact Hr.
  - destruct (decide (audit = k)) as [->|Hne].
    + right. exists encryptedFlag. unfold auditExists.
      rewrite lookup_insert_eq, lookup_total_insert_eq.
      apply negb_true_iff in Heqb1. auto.
    + left. rewrite !lookup_insert_ne by exact Hne. reflexivity.
Qed.

Lemma call_record_total env c s k :
  rederives k (env, c) = false ->
  auditRecords (fst (call env c s)) !!! k = auditRecords s !!! k
  \/ exists f,
       c = CompleteAudit k f
       /\ auditExists s k = true
       /\ isCompleted (auditRecords s !!! k) = false
       /\ auditRecords (fst (call env c s)) !!! k
          = set_isCompleted true
              (set_discrepancyFlag (keccak256 f) (auditRecords s !!! k)).
Proof.
  intros Hr. destruct (call_record_cases env c s k Hr) as [H|(f & -> & He & Hc & H)].
  - left. rewrite !lookup_total_alt, H. reflexivity.
  - right. exists f. repeat split; auto.
    rewrite (lookup_total_alt (auditRecords (fst _))), H. reflexivity.
Qed.

(** What a successful [initiateAudit] checked, and what it wrote. *)
Lemma initiateAudit_inv env a t s s' v :
  call env (InitiateAudit a t) s = (s', Return v) ->
  msg_sender env = auditor s
  /\ validAccountId s a = true
  /\ isActive (accounts s !!! a) = true
  /\ v = VUint (derive_auditId env a)
  /\ auditRecords s' = <[derive_auditId env a := fresh_record env s a t]> (auditRecords s)
  /\ accountAudits s'
     = <[a := (accountAudits s !!! a) ++ [derive_auditId env a]]> (accountAudits s)
  /\ events s'
     = events s ++ [AuditInitiated a (derive_auditId env a) (keccak256 (encode_string t))]
  /\ auditor s' = auditor s /\ totalAccounts s' = totalAccounts s
  /\ accounts s' = accounts s /\ userAccounts s' = userAccounts s.
Proof.
  intros H. tx_cases_in H; try discriminate.
  injection H as <- <-. simpl. unfold validAccountId.
  repeat split; auto. apply Z.eqb_eq. assumption.
Qed.

(** ** Traces *)

Lemma run_cons s env c tr :
  run s ((env, c) :: tr)
  = (fst (run (fst (call env c s)) tr),
     snd (call env c s) :: snd (run (fst (call env c s)) tr)).
Proof.
  simpl. destruct (call env c s) as [s1 o]. simpl.
  destruct (run s1 tr) as [s2 os]. reflexivity.
Qed.

Lemma created_ids_cons env c tr o outs :
  created_ids ((env, c) :: tr) (o :: outs)
  = match c, o with
    | CreateAccount _ _, Return (VUint id) => id :: created_ids tr outs
    | _, _ => created_ids tr outs
    end.
Proof.
  destruct c; reflexivity.
Qed.

(** Only [createAccount] moves the counter, by one, and returns it. *)
Lemma call_totalAccounts env c s :
  match c, snd (call env c s) with
  | CreateAccount _ _, Return v =>
      v = VUint (totalAccounts s + 1)
      /\ totalAccounts (fst (call env c s)) = totalAccounts s + 1
  | _, _ => totalAccounts (fst (call env c s)) = totalAccounts s
  end.
Proof.
  destruct c; tx_cases; simpl; auto.
Qed.

Lemma created_ids_from s tr :
  let ids := created_ids tr (snd (run s tr)) in
  ids = seqZ (totalAccounts s + 1) (Z.of_nat (length ids))
  /\ totalAccounts (fst (run s tr)) = totalAccounts s + Z.of_nat (length ids).
Proof.
  cbv zeta. revert s. induction tr as [|[env c] tr IH]; intros s.
  - simpl. split; [reflexivity | lia].
  - rewrite run_cons. cbn [fst snd]. rewrite created_ids_cons.
    pose proof (call_totalAccounts env c s) as Hc.
    destruct (IH (fst (call env c s))) as [IH1 IH2].
    destruct c; cbv beta iota in Hc;
      try (rewrite Hc in IH1, IH2; split; [exact IH1 | exact IH2]).
    destruct (snd (call env _ s)) as [v|r];
      [|rewrite Hc in IH1, IH2; split; [exact IH1 | exact IH2]].
    destruct Hc as [-> Hc]. rewrite Hc in IH1, IH2.
    cbn [length]. rewrite Nat2Z.inj_succ, seqZ_cons, Z.pred_succ by lia.
    replace (Z.succ (totalAccounts s + 1)) with (totalAccounts s + 1 + 1) by lia.
    split; [f_equal; exact IH1 | lia].
Qed.

Lemma getTotalAccounts_call env s :
  call env GetTotalAccounts s = (s, Return (VUint (totalAccounts s))).
Proof. reflexivity. Qed.

(** ** Invariants of reachable ledgers *)

Lemma auditExists_lookup s k :
  auditExists s k = true ->
  exists r, auditRecords s !! k = Some r /\ auditRecords s !!! k = r.
Proof.
  unfold auditExists. rewrite lookup_total_alt.
  destruct (auditRecords s !! k) as [r|]; simpl; [eauto | discriminate].
Qed.

Lemma validAccountId_bounds s id :
  validAccountId s id = true <-> 1 <= id <= totalAccounts s.
Proof.
  unfold validAccountId. rewrite andb_true_iff, Z.ltb_lt, Z.leb_le. lia.
Qed.

Lemma reachable_totalAccounts_nonneg s : reachable s -> 0 <= totalAccounts s.
Proof.
  induction 1 as [env|env c s _ IH]; [simpl; lia|].
  pose proof (call_totalAccounts env c s) as Hc.
  destruct c; cbv beta iota in Hc; try (rewrite Hc; exact IH).
  destruct (snd (call env _ s)); [destruct Hc as [_ ->]; lia | rewrite Hc; exact IH].
Qed.

(** Every account id in range has had its slot written. *)
Lemma reachable_accounts_present s :
  reachable s ->
  forall id, validAccountId s id = true -> is_Some (accounts s !! id).
Proof.
  induction 1 as [env|env c s _ IH]; intros id.
  - rewrite validAccountId_bounds. simpl. lia.
  - revert id. destruct c; tx_cases; simpl; try exact IH; intros id Hv;
      rewrite ?lookup_insert_is_Some'; auto.
    apply validAccountId_bounds in Hv. simpl in Hv.
    destruct (decide (totalAccounts s + 1 = id)) as [|Hne]; [left; assumption|].
    right. apply IH, validAccountId_bounds. lia.
Qed.

(** Every stored audit record names an account in range, was announced
    by an [AuditInitiated] event and is listed under its account. *)
Lemma reachable_records_sound s :
  reachable s ->
  forall k r,
    auditRecords s !! k = Some r ->
    1 <= accountId r <= totalAccounts s
    /\ (exists t, AuditInitiated (accountId r) k t ∈ events s)
    /\ k ∈ accountAudits s !!! accountId r.
Proof.
  induction 1 as [env|env c s Hs IH]; intros k r.
  - simpl. rewrite lookup_empty. discriminate.
  - pose proof (reachable_totalAccounts_nonneg s Hs) as Hn.
    revert k r. destruct c; tx_cases; simpl; try exact IH; intros k r Hk.
    + (* createAccount *)
      destruct (IH k r Hk) as (Hb & [t Ht] & Hi).
      split; [lia|]. split; [|exact Hi].
      exists t. apply elem_of_app. left. exact Ht.
    + (* updateBalance *)
      destruct (IH k r Hk) as (Hb & [t Ht] & Hi).
      split; [exact Hb|]. split; [|exact Hi].
      exists t. apply elem_of_app. left. exact Ht.
    + (* initiateAudit *)
      apply andb_true_iff in Heqb0 as [Hlo Hhi].
      apply Z.ltb_lt in Hlo. apply Z.leb_le in Hhi.
      apply lookup_insert_Some in Hk as [[<- <-]|[Hne Hk]]; simpl.
      * split; [lia|]. split.
        -- eexists. apply elem_of_app. right. apply list_elem_of_singleton. reflexivity.
        -- rewrite lookup_total_insert_eq. apply elem_of_app. right.
           apply list_elem_of_singleton. reflexivity.
      * destruct (IH k r Hk) as (Hb & [t Ht] & Hi).
        split; [exact Hb|]. split.
        -- exists t. apply elem_of_app. left. exact Ht.
        -- destruct (decide (account = accountId r)) as [->|Hna].
           ++ rewrite lookup_total_insert_eq. apply elem_of_app. left. exact Hi.
           ++ rewrite lookup_total_insert_ne by exact Hna. exact Hi.
    + (* completeAudit *)
      assert (Hex : auditExists s audit = true) by exact Heqb0.
      apply auditExists_lookup in Hex as (r0 & Hr0 & Er0).
      rewrite insert_insert_eq in Hk.
      apply lookup_insert_Some in Hk as [[<- <-]|[Hne Hk]]; simpl.
      * rewrite lookup_total_insert_eq, Er0. simpl.
        destruct (IH audit r0 Hr0) as (Hb & [t Ht] & Hi).
        split; [exact Hb|]. split; [|exact Hi].
        exists t. apply elem_of_app. left. exact Ht.
      * destruct (IH k r Hk) as (Hb & [t Ht] & Hi).
        split; [exact Hb|]. split; [|exact Hi].
        exists t. apply elem_of_app. left. exact Ht.
    + (* transferAuditor *)
      destruct (IH k r Hk) as (Hb & [t Ht] & Hi).
      split; [exact Hb|]. split; [|exact Hi].
      exists t. apply elem_of_app. left. exact Ht.
Qed.

(** Every [AuditInitiated] event left a record behind. *)
Lemma reachable_records_complete s :
  reachable s ->
  forall a k t,
    AuditInitiated a k t ∈ events s -> is_Some (auditRecords s !! k).
Proof.
  induction 1 as [env|env c s Hs IH]; intros a k t.
  - simpl. intros H. apply elem_of_nil in H. contradiction.
  - revert a k t. destruct c; tx_cases; simpl; try exact IH; intros a k t Hin;
      apply elem_of_app in Hin as [Hin|Hin];
      try (apply list_elem_of_singleton in Hin; try discriminate Hin);
      rewrite ?lookup_insert_is_Some'; eauto.
    injection Hin as -> -> ->. left. reflexivity.
Qed.

Lemma auditExists_initiated s k :
  reachable s -> (auditExists s k = true <-> initiated s k).
Proof.
  intros Hs. split.
  - intros He. apply auditExists_lookup in He as (r & Hr & _).
    destruct (reachable_records_sound s Hs k r Hr) as (_ & [t Ht] & _).
    exists (accountId r), t. exact Ht.
  - intros (a & t & Hin).
    destruct (reachable_records_complete s Hs a k t Hin) as [r Hr].
    destruct (reachable_records_sound s Hs k r Hr) as (Hb & _).
    unfold auditExists. rewrite lookup_total_alt, Hr. simpl.
    apply negb_true_iff, Z.eqb_neq. lia.
Qed.

(** The three functions that test existence fail with "audit does not
    exist" exactly when the test fails. *)
Lemma existence_test_calls env s k :
  msg_sender env = auditor s ->
  (forall f, snd (call env (CompleteAudit k f) s) = Revert AuditDoesNotExist
             <-> auditExists s k = false)
  /\ (snd (call env (GetAuditRecord k) s) = Revert AuditDoesNotExist
      <-> auditExists s k = false)
  /\ (snd (call env (GetAuditFlag k) s) = Revert AuditDoesNotExist
      <-> auditExists s k = false).
Proof.
  intros HA. unfold auditExists.
  repeat split; tx_unfold; rewrite HA, Z.eqb_refl;
    destruct (negb (accountId (auditRecords s !!! k) =? 0)) eqn:E;
    cbv beta iota; try tx_case; simpl; intros; congruence.
Qed.

(** ** Audit records across calls *)

Lemma rederives_true k env c :
  rederives k (env, c) = true ->
  exists a t, c = InitiateAudit a t /\ derive_auditId env a = k.
Proof.
  destruct c; simpl; try discriminate. intros H. apply Z.eqb_eq in H. eauto.
Qed.

(** No call makes the existence test fail once it holds. *)
Lemma auditExists_preserved env c s k :
  auditExists s k = true -> auditExists (fst (call env c s)) k = true.
Proof.
  intros He. destruct (rederives k (env, c)) eqn:Hr.
  - apply rederives_true in Hr as (a & t & -> & <-).
    destruct (call env (InitiateAudit a t) s) as [s' [v|r]] eqn:E.
    + apply initiateAudit_inv in E as (_ & Hv & _ & _ & Hrec & _).
      apply validAccountId_bounds in Hv.
      unfold auditExists. simpl. rewrite Hrec, lookup_total_insert_eq. simpl.
      apply negb_true_iff, Z.eqb_neq. lia.
    + pose proof (call_revert_same env (InitiateAudit a t) s r) as Hsame.
      rewrite E in Hsame. specialize (Hsame eq_refl). simpl in Hsame.
      subst s'. exact He.
  - unfold auditExists in *.
    destruct (call_record_total env c s k Hr) as [->|(f & _ & _ & _ & ->)];
      [exact He | simpl; exact He].
Qed.

(** The snapshot of an audit stays what it was through any trace that
    does not derive its id anew. *)
Lemma run_keeps_auditedBalance k tr :
  forallb (fun ec => negb (rederives k ec)) tr = true ->
  forall s,
    auditedBalance (auditRecords (fst (run s tr)) !!! k)
    = auditedBalance (auditRecords s !!! k).
Proof.
  induction tr as [|[env c] tr IH]; intros Hall s; [reflexivity|].
  cbn [forallb] in Hall. apply andb_true_iff in Hall as [Hr Hall].
  apply negb_true_iff in Hr.
  rewrite run_cons. cbn [fst]. rewrite (IH Hall).
  destruct (call_record_total env c s k Hr) as [->|(f & _ & _ & _ & ->)]; reflexivity.
Qed.

(** ** Writing back what is already there *)

Lemma set_isActive_same a : set_isActive (isActive a) a = a.
Proof. destruct a; reflexivity. Qed.

Lemma set_accounts_same s : set_accounts (accounts s) s = s.
Proof. destruct s; reflexivity. Qed.

Lemma update_account_noop s id b :
  is_Some (accounts s !! id) ->
  isActive (accounts s !!! id) = b ->
  set_accounts (<[id := set_isActive b (accounts s !!! id)]> (accounts s)) s = s.
Proof.
  intros [a Ha] <-. rewrite set_isActive_same, insert_id.
  - apply set_accounts_same.
  - rewrite lookup_total_alt, Ha. reflexivity.
Qed.

(** ** The concrete run is a run of the contract *)

Lemma ledger1_reachable : reachable Scenario.ledger1.
Proof. apply reachable_call, reachable_deploy. Qed.

Lemma ledger2_reachable : reachable Scenario.ledger2.
Proof. apply reachable_call, ledger1_reachable. Qed.

(** The digests of the empty string and of [uint256(0)], as every
    Ethereum client computes them. *)
Example keccak256_empty :
  keccak256 [] = 0xc5d2460186f7233c927e7db2dcc703c0e500b653ca82273b7bfad8045d85a470.
Proof. vm_compute. reflexivity. Qed.

Example keccak256_uint256_zero :
  keccak256 (encode_uint256 0)
  = 0x290decd9548b62a8d60345a988386fc84ba6bc95484008f6362f93160ef3e563.
Proof. vm_compute. reflexivity. Qed.

Example keccak256_uint256_one :
  keccak256 (encode_uint256 1)
  = 0xb10e2d527612073b26eecdfd717e6a320cf44b4afac2b0732d9fcbe2b7fa0cf6.
Proof. vm_compute. reflexivity. Qed.

Example keccak256_address_zero :
  keccak256 (encode_address 0)
  = 0x5380c7b7ae81a58eb98d9c78de4a1fd7fd9535fc953ed2be602daaa41767312a.
Proof. vm_compute. reflexivity. Qed.

Example keccak256_abc :
  keccak256 (encode_string "abc")
  = 0x4e03657aea45a94fc7d47ba826c8d667c0d1e6e33a64a036ec44f58fa12d6c45.
Proof. vm_compute. reflexivity. Qed.

(** * Properties of the specification *)

(** ** C1: the life of an audit record *)

(** C1, as stated, fails: two successful [initiateAudit] calls in one
    block, on the same account and by the same auditor, derive the same
    audit id.  Here the first audit is completed in between, and the
    second initiation replaces the completed record by a fresh,
    not-completed one of another audit type. *)
Lemma initiateAudit_same_block_replaces_record :
  call (Scenario.in_block 102 Scenario.theAuditor) (InitiateAudit 1 "compliance")
       Scenario.ledger1
    = (Scenario.ledger2, Return (VUint Scenario.audit1))
  /\ call (Scenario.in_block 102 Scenario.theAuditor)
          (CompleteAudit Scenario.audit1 Scenario.flag_0) Scenario.ledger2
     = (Scenario.ledger3, Return VUnit)
  /\ isCompleted (auditRecords Scenario.ledger3 !!! Scenario.audit1) = true
  /\ call (Scenario.in_block 102 Scenario.theAuditor) (InitiateAudit 1 "financial")
          Scenario.ledger3
     = (Scenario.ledger4, Return (VUint Scenario.audit1))
  /\ isCompleted (auditRecords Scenario.ledger4 !!! Scenario.audit1) = false
  /\ auditType (auditRecords Scenario.ledger4 !!! Scenario.audit1)
     <> auditType (auditRecords Scenario.ledger3 !!! Scenario.audit1).
Proof.
  vm_compute. repeat split; try reflexivity. discriminate.
Qed.

(** C1, amended: an audit record is never deleted (once the existence
    test holds for an id it holds after every call); a call that is not
    an [initiateAudit] deriving the id [k] anew leaves the record [k]
    unchanged, except that [completeAudit] on [k] completes it once,
    from not completed to completed; and a successful [initiateAudit]
    returns the id derived from block timestamp, prevrandao, account id
    and caller, and stores a fresh, not-completed record under it,
    whatever was stored there. *)
Theorem audit_record_lifecycle env c s k :
  (auditExists s k = true -> auditExists (fst (call env c s)) k = true)
  /\ (rederives k (env, c) = false ->
      auditRecords (fst (call env c s)) !!! k = auditRecords s !!! k
      \/ exists f,
           c = CompleteAudit k f
           /\ isCompleted (auditRecords s !!! k) = false
           /\ auditRecords (fst (call env c s)) !!! k
              = set_isCompleted true
                  (set_discrepancyFlag (keccak256 f) (auditRecords s !!! k)))
  /\ (forall a t s' v,
        c = InitiateAudit a t ->
        call env c s = (s', Return v) ->
        v = VUint (derive_auditId env a)
        /\ auditRecords s' !!! derive_auditId env a = fresh_record env s a t).
Proof.
  split; [apply auditExists_preserved|]. split.
  - intros Hr. destruct (call_record_total env c s k Hr) as [H|(f & -> & _ & Hc & H)];
      [left; exact H | right; eauto].
  - intros a t s' v -> H.
    apply initiateAudit_inv in H as (_ & _ & _ & -> & -> & _).
    split; [reflexivity | apply lookup_total_insert_eq].
Qed.

(** The record of the first audit is still there, and unchanged, after
    an initiation in a later block; and the initiation of block 102
    stored a fresh record under the id it returned. *)
Lemma audit_record_lifecycle_witness :
  auditExists
    (fst (call (Scenario.in_block 103 Scenario.theAuditor)
               (InitiateAudit 1 "financial") Scenario.ledger2))
    Scenario.audit1 = true
  /\ auditRecords
       (fst (call (Scenario.in_block 103 Scenario.theAuditor)
                  (InitiateAudit 1 "financial") Scenario.ledger2))
       !!! Scenario.audit1
     = auditRecords Scenario.ledger2 !!! Scenario.audit1
  /\ auditRecords Scenario.ledger2
       !!! derive_auditId (Scenario.in_block 102 Scenario.theAuditor) 1
     = fresh_record (Scenario.in_block 102 Scenario.theAuditor)
         Scenario.ledger1 1 "compliance".
Proof.
  pose proof (audit_record_lifecycle
                (Scenario.in_block 103 Scenario.theAuditor)
                (InitiateAudit 1 "financial") Scenario.ledger2 Scenario.audit1)
    as (Hkeep & Hsame & _).
  pose proof (audit_record_lifecycle
                (Scenario.in_block 102 Scenario.theAuditor)
                (InitiateAudit 1 "compliance") Scenario.ledger1 Scenario.audit1)
    as (_ & _ & Hfresh).
  split; [|split].
  - apply Hkeep. vm_compute. reflexivity.
  - destruct Hsame as [H|(f & Hc & _)].
    + vm_compute. reflexivity.
    + exact H.
    + discriminate Hc.
  - apply (Hfresh 1 "compliance"%string Scenario.ledger2 (VUint Scenario.audit1)).
    + reflexivity.
    + vm_compute. reflexivity.
Defined.

(** ** C2: events *)

(** C2, as stated, fails: [deactivateAccount] succeeds and changes the
    ledger (account 1 goes from active to inactive), and the event log
    is what it was. *)
Lemma deactivateAccount_emits_nothing :
  call (Scenario.in_block 103 Scenario.theOwner) (DeactivateAccount 1) Scenario.ledger2
    = (Scenario.ledger2d, Return VUnit)
  /\ isActive (accounts Scenario.ledger2 !!! 1) = true
  /\ isActive (accounts Scenario.ledger2d !!! 1) = false
  /\ events Scenario.ledger2d = events Scenario.ledger2.
Proof.
  vm_compute. repeat split; reflexivity.
Qed.

(** C2, amended: each successful [createAccount], [updateBalance],
    [initiateAudit], [completeAudit] and [transferAuditor] appends
    exactly one event, the one recording that transition;
    [deactivateAccount] and [reactivateAccount] change the account's
    [isActive] and append no event; the other functions change
    nothing. *)
Theorem events_of_successful_calls env c s s' v :
  call env c s = (s', Return v) ->
  match c with
  | CreateAccount b t =>
      events s' = events s ++
        [AccountCreated (totalAccounts s + 1) (msg_sender env)
           (keccak256 (encode_string t))]
  | UpdateBalance a b t =>
      events s' = events s ++
        [BalanceUpdated a (block_timestamp env) (keccak256 (encode_string t))]
  | InitiateAudit a t =>
      events s' = events s ++
        [AuditInitiated a (derive_auditId env a) (keccak256 (encode_string t))]
  | CompleteAudit k f =>
      events s' = events s ++ [AuditCompleted (accountId (auditRecords s !!! k)) k]
  | TransferAuditor n =>
      events s' = events s ++ [AuditorTransferred (auditor s) n]
  | DeactivateAccount a =>
      events s' = events s
      /\ accounts s' = <[a := set_isActive false (accounts s !!! a)]> (accounts s)
  | ReactivateAccount a =>
      events s' = events s
      /\ accounts s' = <[a := set_isActive true (accounts s !!! a)]> (accounts s)
  | _ => s' = s
  end.
Proof.
  intros H. destruct c; tx_cases_in H; try discriminate;
    injection H as <- <-; simpl; auto.
  rewrite !lookup_total_insert_eq. reflexivity.
Qed.

Lemma events_of_successful_calls_witness :
  events Scenario.ledger2
  = events Scenario.ledger1 ++
      [AuditInitiated 1 (derive_auditId (Scenario.in_block 102 Scenario.theAuditor) 1)
         (keccak256 (encode_string "compliance"))].
Proof.
  apply (events_of_successful_calls (Scenario.in_block 102 Scenario.theAuditor)
           (InitiateAudit 1 "compliance") Scenario.ledger1 Scenario.ledger2
           (VUint Scenario.audit1)).
  vm_compute. reflexivity.
Defined.

(** ** C3: errors *)

(** C3: whenever a call reports an error, the ledger the failing check
    saw is the ledger the call started in, so no write came before the
    error, and the ledger after the call is that same ledger. *)
Theorem error_leaves_ledger_unchanged env c s s' r :
  dispatch env c s = (s', Revert r) ->
  s' = s /\ call env c s = (s, Revert r).
Proof.
  intros H. split.
  - eapply revert_before_write; eassumption.
  - unfold call, execute. rewrite H. reflexivity.
Qed.

Lemma error_leaves_ledger_unchanged_witness :
  fst (dispatch (Scenario.in_block 104 Scenario.stranger)
         (UpdateBalance 1 Scenario.bytes_1500 "deposit") Scenario.ledger2)
    = Scenario.ledger2
  /\ call (Scenario.in_block 104 Scenario.stranger)
       (UpdateBalance 1 Scenario.bytes_1500 "deposit") Scenario.ledger2
     = (Scenario.ledger2, Revert NotAccountOwner).
Proof.
  apply (error_leaves_ledger_unchanged
           (Scenario.in_block 104 Scenario.stranger)
           (UpdateBalance 1 Scenario.bytes_1500 "deposit")
           Scenario.ledger2).
  vm_compute. reflexivity.
Defined.

(** ** C4: the audit snapshot *)

(** C4, as stated, fails: after the audit of account 1 began, the owner
    updates the balance and the auditor initiates again in the same
    block.  The second initiation derives the same audit id and
    overwrites the snapshot of the record with the new commitment. *)
Lemma initiateAudit_same_block_replaces_snapshot :
  call (Scenario.in_block 102 Scenario.theAuditor) (InitiateAudit 1 "compliance")
       Scenario.ledger1
    = (Scenario.ledger2, Return (VUint Scenario.audit1))
  /\ auditedBalance (auditRecords Scenario.ledger2 !!! Scenario.audit1)
     = keccak256 Scenario.bytes_1000
  /\ call (Scenario.in_block 102 Scenario.theOwner)
          (UpdateBalance 1 Scenario.bytes_1500 "deposit") Scenario.ledger2
     = (Scenario.ledger2u, Return VUnit)
  /\ call (Scenario.in_block 102 Scenario.theAuditor) (InitiateAudit 1 "compliance")
          Scenario.ledger2u
     = (Scenario.ledger4u, Return (VUint Scenario.audit1))
  /\ auditedBalance (auditRecords Scenario.ledger4u !!! Scenario.audit1)
     = keccak256 Scenario.bytes_1500
  /\ auditedBalance (auditRecords Scenario.ledger4u !!! Scenario.audit1)
     <> auditedBalance (auditRecords Scenario.ledger2 !!! Scenario.audit1).
Proof.
  vm_compute. repeat split; try reflexivity. discriminate.
Qed.

(** C4, amended: the record a successful [initiateAudit] stores holds
    the audited account's [encryptedBalance] of that instant, and that
    snapshot is still the same after any later calls (balance updates,
    completion, anything else) among which no [initiateAudit] derives
    the same audit id anew. *)
Theorem audit_snapshot_frozen env a t s s1 v tr :
  call env (InitiateAudit a t) s = (s1, Return v) ->
  forallb (fun ec => negb (rederives (derive_auditId env a) ec)) tr = true ->
  v = VUint (derive_auditId env a)
  /\ accountId (auditRecords s1 !!! derive_auditId env a) = a
  /\ auditedBalance (auditRecords s1 !!! derive_auditId env a)
     = encryptedBalance (accounts s !!! a)
  /\ auditedBalance (auditRecords (fst (run s1 tr)) !!! derive_auditId env a)
     = encryptedBalance (accounts s !!! a).
Proof.
  intros H Hall. rewrite (run_keeps_auditedBalance _ _ Hall).
  apply initiateAudit_inv in H as (_ & _ & _ & -> & -> & _).
  rewrite lookup_total_insert_eq. simpl. auto.
Qed.

(** The snapshot of the first audit outlives a balance update, its own
    completion and an audit initiated in a later block. *)
Lemma audit_snapshot_frozen_witness :
  VUint Scenario.audit1
    = VUint (derive_auditId (Scenario.in_block 102 Scenario.theAuditor) 1)
  /\ accountId (auditRecords Scenario.ledger2
                  !!! derive_auditId (Scenario.in_block 102 Scenario.theAuditor) 1)
     = 1
  /\ auditedBalance (auditRecords Scenario.ledger2
                       !!! derive_auditId (Scenario.in_block 102 Scenario.theAuditor) 1)
     = encryptedBalance (accounts Scenario.ledger1 !!! 1)
  /\ auditedBalance
       (auditRecords
          (fst (run Scenario.ledger2
                  [ (Scenario.in_block 102 Scenario.theOwner,
                     UpdateBalance 1 Scenario.bytes_1500 "deposit");
                    (Scenario.in_block 103 Scenario.theAuditor,
                     CompleteAudit Scenario.audit1 Scenario.flag_0);
                    (Scenario.in_block 104 Scenario.theAuditor,
                     InitiateAudit 1 "financial") ]))
          !!! derive_auditId (Scenario.in_block 102 Scenario.theAuditor) 1)
     = encryptedBalance (accounts Scenario.ledger1 !!! 1).
Proof.
  apply (audit_snapshot_frozen (Scenario.in_block 102 Scenario.theAuditor) 1
           "compliance" Scenario.ledger1 Scenario.ledger2 (VUint Scenario.audit1)).
  - vm_compute. reflexivity.
  - vm_compute. reflexivity.
Defined.

(** ** C5: account ids *)

(** C5: along any trace of calls from a freshly deployed ledger, the
    ids returned by the successful [createAccount] calls are, in call
    order, exactly 1, 2, ..., N, where N is their number, and
    [getTotalAccounts] then returns N. *)
Theorem createAccount_ids_sequential env0 tr env :
  let s := fst (run (constructor env0) tr) in
  let ids := created_ids tr (snd (run (constructor env0) tr)) in
  ids = seqZ 1 (Z.of_nat (length ids))
  /\ call env GetTotalAccounts s = (s, Return (VUint (Z.of_nat (length ids)))).
Proof.
  cbv zeta. destruct (created_ids_from (constructor env0) tr) as [H1 H2].
  split; [exact H1|]. rewrite getTotalAccounts_call, H2. reflexivity.
Qed.

Example three_creations_run :
  created_ids Scenario.creations (snd (run Scenario.ledger0 Scenario.creations))
  = [1; 2; 3].
Proof. vm_compute. reflexivity. Qed.

(** ** C6: completing twice *)

(** C6: when the auditor completes an existing, not yet completed audit
    twice, the first call succeeds and leaves [isCompleted] true, the
    second fails with "audit already completed", and the ledger after
    the second call is the ledger after the first. *)
Theorem completeAudit_twice env1 env2 s k flag1 flag2 :
  msg_sender env1 = auditor s ->
  msg_sender env2 = auditor s ->
  auditExists s k = true ->
  isCompleted (auditRecords s !!! k) = false ->
  exists s1,
    call env1 (CompleteAudit k flag1) s = (s1, Return VUnit)
    /\ isCompleted (auditRecords s1 !!! k) = true
    /\ call env2 (CompleteAudit k flag2) s1 = (s1, Revert AuditAlreadyDone)
    /\ error_kind AuditAlreadyDone = AuditAlreadyCompleted.
Proof.
  intros H1 H2 Hex Hnc. unfold auditExists in Hex.
  eexists. split.
  { tx_unfold. rewrite H1, Z.eqb_refl, Hex, Hnc. simpl. reflexivity. }
  split; [simpl; rewrite !lookup_total_insert_eq; reflexivity|].
  split; [|reflexivity].
  tx_unfold. simpl. rewrite !lookup_total_insert_eq. simpl.
  rewrite H2, Z.eqb_refl, Hex. simpl. reflexivity.
Qed.

Lemma completeAudit_twice_witness :
  exists s1,
    call (Scenario.in_block 103 Scenario.theAuditor)
         (CompleteAudit Scenario.audit1 Scenario.flag_0) Scenario.ledger2
      = (s1, Return VUnit)
    /\ isCompleted (auditRecords s1 !!! Scenario.audit1) = true
    /\ call (Scenario.in_block 104 Scenario.theAuditor)
         (CompleteAudit Scenario.audit1 Scenario.bytes_1500) s1
      = (s1, Revert AuditAlreadyDone)
    /\ error_kind AuditAlreadyDone = AuditAlreadyCompleted.
Proof.
  apply completeAudit_twice; vm_compute; reflexivity.
Defined.

(** ** C7: only the owner updates *)

(** C7: on an account id in range, [updateBalance] by any caller other
    than the account's owner fails with "caller is not account owner"
    (Unauthorized), whoever the caller is, the current auditor
    included, and leaves the ledger as it was. *)
Theorem updateBalance_requires_owner env s id bal ty :
  validAccountId s id = true ->
  msg_sender env <> accountOwner (accounts s !!! id) ->
  call env (UpdateBalance id bal ty) s = (s, Revert NotAccountOwner)
  /\ error_kind NotAccountOwner = Unauthorized.
Proof.
  unfold validAccountId. intros Hv Hne. split; [|reflexivity].
  tx_unfold. rewrite Hv.
  destruct (accountOwner (accounts s !!! id) =? msg_sender env) eqn:E; [|reflexivity].
  apply Z.eqb_eq in E. congruence.
Qed.

(** The caller here is the current auditor. *)
Lemma updateBalance_requires_owner_witness :
  msg_sender (Scenario.in_block 104 Scenario.theAuditor) = auditor Scenario.ledger2
  /\ call (Scenario.in_block 104 Scenario.theAuditor)
          (UpdateBalance 1 Scenario.bytes_1500 "deposit") Scenario.ledger2
     = (Scenario.ledger2, Revert NotAccountOwner)
  /\ error_kind NotAccountOwner = Unauthorized.
Proof.
  split; [vm_compute; reflexivity|].
  apply updateBalance_requires_owner.
  - vm_compute. reflexivity.
  - vm_compute. discriminate.
Defined.

(** ** C8: deactivating and reactivating *)

(** C8: on an account id in range and for calls by the account's owner,
    [deactivateAccount] then [reactivateAccount] succeed and leave the
    account active with the owner and the account type it had;
    deactivating the account again once inactive, and reactivating it
    again once active, succeed and change nothing (on a reachable
    ledger, deactivating an account that is already inactive or
    reactivating one that is already active leaves the whole ledger as
    it was); and [updateBalance] on the inactive account fails with
    "account is not active" (InactiveAccount). *)
Theorem deactivate_reactivate e1 e2 e3 s id :
  validAccountId s id = true ->
  msg_sender e1 = accountOwner (accounts s !!! id) ->
  msg_sender e2 = accountOwner (accounts s !!! id) ->
  msg_sender e3 = accountOwner (accounts s !!! id) ->
  exists s1 s2,
    call e1 (DeactivateAccount id) s = (s1, Return VUnit)
    /\ call e2 (ReactivateAccount id) s1 = (s2, Return VUnit)
    /\ isActive (accounts s1 !!! id) = false
    /\ isActive (accounts s2 !!! id) = true
    /\ accountOwner (accounts s2 !!! id) = accountOwner (accounts s !!! id)
    /\ accountType (accounts s2 !!! id) = accountType (accounts s !!! id)
    /\ call e3 (DeactivateAccount id) s1 = (s1, Return VUnit)
    /\ call e3 (ReactivateAccount id) s2 = (s2, Return VUnit)
    /\ (reachable s -> isActive (accounts s !!! id) = false -> s1 = s)
    /\ (reachable s -> isActive (accounts s !!! id) = true -> s2 = s)
    /\ (forall bal ty,
          call e3 (UpdateBalance id bal ty) s1 = (s1, Revert AccountNotActive))
    /\ error_kind AccountNotActive = InactiveAccount.
Proof.
  intros Hv H1 H2 H3. pose proof Hv as Hv'. unfold validAccountId in Hv'.
  exists (set_accounts (<[id := set_isActive false (accounts s !!! id)]> (accounts s)) s).
  exists (set_accounts (<[id := set_isActive true (accounts s !!! id)]> (accounts s)) s).
  split.
  { tx_unfold. rewrite Hv', H1, Z.eqb_refl. reflexivity. }
  split.
  { tx_unfold. simpl. rewrite lookup_total_insert_eq. simpl.
    rewrite Hv', H2, Z.eqb_refl. simpl. rewrite insert_insert_eq. reflexivity. }
  split; [simpl; rewrite lookup_total_insert_eq; reflexivity|].
  split; [simpl; rewrite lookup_total_insert_eq; reflexivity|].
  split; [simpl; rewrite lookup_total_insert_eq; reflexivity|].
  split; [simpl; rewrite lookup_total_insert_eq; reflexivity|].
  split.
  { tx_unfold. simpl. rewrite lookup_total_insert_eq. simpl.
    rewrite Hv', H3, Z.eqb_refl. simpl. rewrite insert_insert_eq. reflexivity. }
  split.
  { tx_unfold. simpl. rewrite lookup_total_insert_eq. simpl.
    rewrite Hv', H3, Z.eqb_refl. simpl. rewrite insert_insert_eq. reflexivity. }
  split.
  { intros Hr Hi. apply update_account_noop; [|exact Hi].
    apply reachable_accounts_present; assumption. }
  split.
  { intros Hr Hi. apply update_account_noop; [|exact Hi].
    apply reachable_accounts_present; assumption. }
  split; [|reflexivity].
  intros bal ty. tx_unfold. simpl. rewrite lookup_total_insert_eq. simpl.
  rewrite Hv', H3, Z.eqb_refl. reflexivity.
Qed.

(** Account 1 of the concrete run, which is active: deactivating and
    reactivating it gives back the ledger it started from. *)
Lemma deactivate_reactivate_witness :
  exists s1 s2,
    call (Scenario.in_block 103 Scenario.theOwner) (DeactivateAccount 1)
         Scenario.ledger2 = (s1, Return VUnit)
    /\ call (Scenario.in_block 104 Scenario.theOwner) (ReactivateAccount 1) s1
       = (s2, Return VUnit)
    /\ isActive (accounts s1 !!! 1) = false
    /\ isActive (accounts s2 !!! 1) = true
    /\ accountOwner (accounts s2 !!! 1) = accountOwner (accounts Scenario.ledger2 !!! 1)
    /\ accountType (accounts s2 !!! 1) = accountType (accounts Scenario.ledger2 !!! 1)
    /\ call (Scenario.in_block 105 Scenario.theOwner) (DeactivateAccount 1) s1
       = (s1, Return VUnit)
    /\ call (Scenario.in_block 105 Scenario.theOwner) (ReactivateAccount 1) s2
       = (s2, Return VUnit)
    /\ (reachable Scenario.ledger2 ->
        isActive (accounts Scenario.ledger2 !!! 1) = false -> s1 = Scenario.ledger2)
    /\ (reachable Scenario.ledger2 ->
        isActive (accounts Scenario.ledger2 !!! 1) = true -> s2 = Scenario.ledger2)
    /\ (forall bal ty,
          call (Scenario.in_block 105 Scenario.theOwner) (UpdateBalance 1 bal ty) s1
          = (s1, Revert AccountNotActive))
    /\ error_kind AccountNotActive = InactiveAccount.
Proof.
  apply deactivate_reactivate; vm_compute; reflexivity.
Defined.

(** ** C9: completing the audit of a deactivated account *)

(** C9: [completeAudit] by the current auditor on an existing, not yet
    completed audit record succeeds whatever the state of the audited
    account; in particular it succeeds after the account was
    deactivated, and leaves the record completed. *)
Theorem completeAudit_ignores_account_state envO envA s k flag :
  msg_sender envA = auditor s ->
  auditExists s k = true ->
  isCompleted (auditRecords s !!! k) = false ->
  (exists s', call envA (CompleteAudit k flag) s = (s', Return VUnit))
  /\ (forall s1,
        call envO (DeactivateAccount (accountId (auditRecords s !!! k))) s
          = (s1, Return VUnit) ->
        isActive (accounts s1 !!! accountId (auditRecords s !!! k)) = false
        /\ exists s2,
             call envA (CompleteAudit k flag) s1 = (s2, Return VUnit)
             /\ isCompleted (auditRecords s2 !!! k) = true).
Proof.
  intros HA Hex Hnc. unfold auditExists in Hex. split.
  - eexists. tx_unfold. rewrite HA, Z.eqb_refl, Hex, Hnc. simpl. reflexivity.
  - intros s1 Hd. tx_cases_in Hd; try discriminate.
    injection Hd as <-. simpl. rewrite lookup_total_insert_eq. split; [reflexivity|].
    eexists. tx_unfold. simpl. rewrite HA, Z.eqb_refl, Hex, Hnc. simpl.
    split; [reflexivity|].
    simpl. rewrite !lookup_total_insert_eq. reflexivity.
Qed.

(** The audit of account 1 began while the account was active; the
    owner then deactivated the account; the auditor completes. *)
Lemma completeAudit_ignores_account_state_witness :
  isActive
    (accounts Scenario.ledger2d
       !!! accountId (auditRecords Scenario.ledger2 !!! Scenario.audit1)) = false
  /\ exists s2,
       call (Scenario.in_block 104 Scenario.theAuditor)
            (CompleteAudit Scenario.audit1 Scenario.flag_0) Scenario.ledger2d
         = (s2, Return VUnit)
       /\ isCompleted (auditRecords s2 !!! Scenario.audit1) = true.
Proof.
  apply (completeAudit_ignores_account_state
           (Scenario.in_block 103 Scenario.theOwner)
           (Scenario.in_block 104 Scenario.theAuditor)
           Scenario.ledger2 Scenario.audit1 Scenario.flag_0);
    vm_compute; reflexivity.
Defined.

(** ** C10: the existence test *)

(** C10: in every reachable ledger, a stored audit record names an
    account id between 1 and [totalAccounts], never 0; the test
    [auditRecords[auditId].accountId != 0] holds exactly for the audit
    ids announced by an [AuditInitiated] event, that is, handed out by
    a successful [initiateAudit]; and [completeAudit], [getAuditRecord]
    and [getAuditFlag], called by the auditor, fail with "audit does
    not exist" exactly for the other ids. *)
Theorem existence_test_characterizes_initiated s k :
  reachable s ->
  (forall r, auditRecords s !! k = Some r -> 1 <= accountId r <= totalAccounts s)
  /\ (auditExists s k = true <-> initiated s k)
  /\ (forall env,
        msg_sender env = auditor s ->
        (forall f, snd (call env (CompleteAudit k f) s) = Revert AuditDoesNotExist
                   <-> ~ initiated s k)
        /\ (snd (call env (GetAuditRecord k) s) = Revert AuditDoesNotExist
            <-> ~ initiated s k)
        /\ (snd (call env (GetAuditFlag k) s) = Revert AuditDoesNotExist
            <-> ~ initiated s k)).
Proof.
  intros Hs. pose proof (auditExists_initiated s k Hs) as Hiff.
  split; [intros r Hr; apply (reachable_records_sound s Hs k r Hr)|].
  split; [exact Hiff|].
  intros env HA.
  assert (Hn : auditExists s k = false <-> ~ initiated s k).
  { rewrite <- Hiff. destruct (auditExists s k); split; intros; congruence. }
  destruct (existence_test_calls env s k HA) as (H1 & H2 & H3).
  split; [intros f; rewrite <- Hn; apply H1|].
  split; [rewrite <- Hn; exact H2 | rewrite <- Hn; exact H3].
Qed.

(** In the concrete run the first audit's id passes the test and was
    announced; the id 0 was never handed out and fails it. *)
Lemma existence_test_characterizes_initiated_witness :
  (auditExists Scenario.ledger2 Scenario.audit1 = true
   /\ initiated Scenario.ledger2 Scenario.audit1)
  /\ (auditExists Scenario.ledger2 0 = false
      /\ snd (call (Scenario.in_block 104 Scenario.theAuditor) (GetAuditFlag 0)
                   Scenario.ledger2) = Revert AuditDoesNotExist).
Proof.
  pose proof (existence_test_characterizes_initiated
                Scenario.ledger2 Scenario.audit1 ledger2_reachable)
    as (_ & Hiff & _).
  split.
  - assert (He : auditExists Scenario.ledger2 Scenario.audit1 = true)
      by (vm_compute; reflexivity).
    split; [exact He | apply Hiff; exact He].
  - split; vm_compute; reflexivity.
Defined.

(** * Further properties of the contract *)

(** Turn the boolean tests of the modifiers into propositions. *)
Ltac bool_hyps :=
  repeat match goal with
         | H : (_ && _) = true |- _ => apply andb_true_iff in H as [? ?]
         | H : (_ || _) = false |- _ => apply orb_false_iff in H as [? ?]
         | H : negb _ = true |- _ => apply negb_true_iff in H
         | H : negb _ = false |- _ => apply negb_false_iff in H
         | H : (_ <? _) = true |- _ => apply Z.ltb_lt in H
         | H : (_ <=? _) = true |- _ => apply Z.leb_le in H
         | H : (_ =? _) = true |- _ => apply Z.eqb_eq in H
         | H : (_ =? _) = false |- _ => apply Z.eqb_neq in H
         end.

(** ** Induction along traces *)

Lemma run_app s tr1 tr2 :
  fst (run s (tr1 ++ tr2)) = fst (run (fst (run s tr1)) tr2).
Proof.
  revert s. induction tr1 as [|[env c] tr1 IH]; intros s; [reflexivity|].
  rewrite <- app_comm_cons, !run_cons. cbn [fst]. apply IH.
Qed.

Lemma run_snoc s tr env c :
  fst (run s (tr ++ [(env, c)])) = fst (call env c (fst (run s tr))).
Proof.
  rewrite run_app, run_cons. reflexivity.
Qed.

(** What holds of the first ledger and is kept by every call holds
    after every trace. *)
Lemma run_invariant (P : Ledger -> Prop) s0 :
  P s0 ->
  (forall env c s, P s -> P (fst (call env c s))) ->
  forall tr, P (fst (run s0 tr)).
Proof.
  intros H0 Hstep tr. induction tr as [|[env c] tr IH] using rev_ind; [exact H0|].
  rewrite run_snoc. apply Hstep, IH.
Qed.

Lemma run_reachable s tr : reachable s -> reachable (fst (run s tr)).
Proof.
  intros Hs. apply run_invariant; [exact Hs|].
  intros env c s' Hs'. apply reachable_call, Hs'.
Qed.

Lemma ledger2u_reachable : reachable Scenario.ledger2u.
Proof. apply reachable_call, ledger2_reachable. Qed.

Lemma busy_reachable : reachable (fst (run Scenario.ledger1 Scenario.busy_trace)).
Proof. apply run_reachable, ledger1_reachable. Qed.

(** ** The auditor role *)

(** X1: [transferAuditor] by the auditor to a non-zero address other
    than the auditor succeeds, sets the auditor and appends the event,
    changing nothing else; from then on every auditor-only function
    called by the previous auditor fails with "caller is not the
    auditor", and [initiateAudit] by the new auditor on an active
    account in range succeeds. *)
Theorem transferAuditor_hands_over env s n :
  msg_sender env = auditor s ->
  n <> 0 ->
  n <> auditor s ->
  exists s',
    call env (TransferAuditor n) s = (s', Return VUnit)
    /\ s' = set_events (events s ++ [AuditorTransferred (auditor s) n]) (set_auditor n s)
    /\ (forall env' c,
          msg_sender env' = auditor s ->
          has_onlyAuditor c = true ->
          call env' c s' = (s', Revert NotAuditor))
    /\ (forall env' a t,
          msg_sender env' = n ->
          validAccountId s a = true ->
          isActive (accounts s !!! a) = true ->
          exists s'',
            call env' (InitiateAudit a t) s'
            = (s'', Return (VUint (derive_auditId env' a)))).
Proof.
  intros HA Hz Hc. eexists. split; [|split; [reflexivity|split]].
  - tx_unfold. rewrite HA, Z.eqb_refl.
    apply Z.eqb_neq in Hz, Hc. rewrite Hz, Hc. reflexivity.
  - intros env' c Ho Hc'.
    assert (Hne : (msg_sender env' =? n) = false) by (apply Z.eqb_neq; congruence).
    destruct c; try discriminate Hc'; tx_unfold; simpl; rewrite Hne; reflexivity.
  - intros env' a t Hn Hv Hact. unfold validAccountId in Hv.
    eexists. tx_unfold. simpl. rewrite Hn, Z.eqb_refl, Hv, Hact. reflexivity.
Qed.

(** The auditor of the concrete run hands the role to the stranger;
    the old auditor can then no longer initiate an audit of account 1,
    and the stranger can. *)
Lemma transferAuditor_hands_over_witness :
  call (Scenario.in_block 105 Scenario.theAuditor)
       (TransferAuditor Scenario.stranger) Scenario.ledger2
    = (Scenario.ledger5, Return VUnit)
  /\ call (Scenario.in_block 106 Scenario.theAuditor) (InitiateAudit 1 "security")
          Scenario.ledger5
     = (Scenario.ledger5, Revert NotAuditor)
  /\ exists s'',
       call (Scenario.in_block 106 Scenario.stranger) (InitiateAudit 1 "security")
            Scenario.ledger5
       = (s'', Return (VUint (derive_auditId (Scenario.in_block 106 Scenario.stranger) 1))).
Proof.
  destruct (transferAuditor_hands_over
              (Scenario.in_block 105 Scenario.theAuditor) Scenario.ledger2
              Scenario.stranger)
    as (s' & Hcall & Hs' & Hold & Hnew).
  - vm_compute. reflexivity.
  - vm_compute. discriminate.
  - vm_compute. discriminate.
  - assert (E : s' = Scenario.ledger5).
    { unfold Scenario.ledger5. rewrite Hcall. reflexivity. }
    subst s'. split; [exact Hcall|]. split.
    + apply Hold; [vm_compute; reflexivity | reflexivity].
    + apply Hnew; vm_compute; reflexivity.
Defined.

(** X2: [transferAuditor] by a caller who is not the auditor fails with
    "caller is not the auditor", whatever the target; by the auditor
    with the zero address it fails with "new auditor cannot be zero
    address"; by the auditor with the auditor's own address it fails
    with "new auditor cannot be current auditor" (both InvalidAuditor). *)
Theorem transferAuditor_rejections env s n :
  (msg_sender env <> auditor s ->
   call env (TransferAuditor n) s = (s, Revert NotAuditor))
  /\ (msg_sender env = auditor s -> n = 0 ->
      call env (TransferAuditor n) s = (s, Revert NewAuditorZero))
  /\ (msg_sender env = auditor s -> n <> 0 -> n = auditor s ->
      call env (TransferAuditor n) s = (s, Revert NewAuditorCurrent))
  /\ error_kind NewAuditorZero = InvalidAuditor
  /\ error_kind NewAuditorCurrent = InvalidAuditor.
Proof.
  split; [|split; [|split; [|split; reflexivity]]].
  - intros Hne. apply Z.eqb_neq in Hne. tx_unfold. rewrite Hne. reflexivity.
  - intros HA Hz. subst n. tx_unfold. rewrite HA, Z.eqb_refl. reflexivity.
  - intros HA Hz Hc. apply Z.eqb_neq in Hz. apply Z.eqb_eq in Hc. tx_unfold.
    rewrite HA, Z.eqb_refl, Hz, Hc. reflexivity.
Qed.

Lemma transferAuditor_rejections_witness :
  call (Scenario.in_block 105 Scenario.stranger) (TransferAuditor 0) Scenario.ledger2
    = (Scenario.ledger2, Revert NotAuditor)
  /\ call (Scenario.in_block 105 Scenario.theAuditor) (TransferAuditor 0)
          Scenario.ledger2
     = (Scenario.ledger2, Revert NewAuditorZero)
  /\ call (Scenario.in_block 105 Scenario.theAuditor)
          (TransferAuditor Scenario.theAuditor) Scenario.ledger2
     = (Scenario.ledger2, Revert NewAuditorCurrent).
Proof.
  split; [|split].
  - apply (transferAuditor_rejections
             (Scenario.in_block 105 Scenario.stranger) Scenario.ledger2 0).
    vm_compute. discriminate.
  - apply (transferAuditor_rejections
             (Scenario.in_block 105 Scenario.theAuditor) Scenario.ledger2 0);
      vm_compute; reflexivity.
  - apply (transferAuditor_rejections
             (Scenario.in_block 105 Scenario.theAuditor) Scenario.ledger2
             Scenario.theAuditor).
    + vm_compute. reflexivity.
    + vm_compute. discriminate.
    + vm_compute. reflexivity.
Defined.

(** X3: the auditor after any trace of calls is the one the log gives:
    the deployer, replaced by the target of each [AuditorTransferred]
    event in turn; and every such event names a new auditor that is
    neither the zero address nor the previous auditor. *)
Theorem auditor_follows_log env0 tr :
  let s := fst (run (constructor env0) tr) in
  auditor s = auditor_logged (msg_sender env0) (events s)
  /\ (forall p n, AuditorTransferred p n ∈ events s -> n <> 0 /\ n <> p).
Proof.
  cbv zeta. apply run_invariant.
  - split; [reflexivity|]. simpl. intros p n H. apply elem_of_nil in H. contradiction.
  - intros env c s [Ha Hlog]. unfold auditor_logged in *.
    destruct c; tx_cases; simpl; rewrite ?fold_left_app; simpl;
      (split; [exact Ha || reflexivity|]); try exact Hlog;
      intros p n Hin; apply elem_of_app in Hin as [Hin|Hin]; try (apply Hlog; exact Hin);
      apply list_elem_of_singleton in Hin; try discriminate Hin.
    injection Hin as -> ->. bool_hyps. split; assumption.
Qed.

(** X4: a call by anyone but the current auditor, whatever the function
    and whether it succeeds or not, leaves every audit record, every
    per-account audit list and the auditor as they were. *)
Theorem only_auditor_changes_audits env c s :
  msg_sender env <> auditor s ->
  auditRecords (fst (call env c s)) = auditRecords s
  /\ accountAudits (fst (call env c s)) = accountAudits s
  /\ auditor (fst (call env c s)) = auditor s.
Proof.
  intros Hne. destruct c; tx_cases; simpl; auto; bool_hyps; congruence.
Qed.

(** The owner of account 1 tries to complete the audit of the account. *)
Lemma only_auditor_changes_audits_witness :
  auditRecords
    (fst (call (Scenario.in_block 103 Scenario.theOwner)
               (CompleteAudit Scenario.audit1 Scenario.flag_0) Scenario.ledger2))
  = auditRecords Scenario.ledger2
  /\ accountAudits
       (fst (call (Scenario.in_block 103 Scenario.theOwner)
                  (CompleteAudit Scenario.audit1 Scenario.flag_0) Scenario.ledger2))
     = accountAudits Scenario.ledger2
  /\ auditor
       (fst (call (Scenario.in_block 103 Scenario.theOwner)
                  (CompleteAudit Scenario.audit1 Scenario.flag_0) Scenario.ledger2))
     = auditor Scenario.ledger2.
Proof.
  apply only_auditor_changes_audits. vm_compute. discriminate.
Defined.

(** ** The account table *)

Lemma UINT256_MAX_pos : 0 < UINT256_MAX.
Proof. vm_compute. reflexivity. Qed.

(** The counter stays in [uint256], and the written slots of [accounts]
    are those of the ids in range. *)
Lemma reachable_counter_and_slots s :
  reachable s ->
  0 <= totalAccounts s <= UINT256_MAX
  /\ (forall id, is_Some (accounts s !! id) <-> 1 <= id <= totalAccounts s).
Proof.
  pose proof UINT256_MAX_pos as Hmax.
  induction 1 as [env|env c s Hs IH].
  - simpl. split; [lia|]. intros id. rewrite lookup_empty. split.
    + intros [x Hx]. discriminate.
    + lia.
  - destruct IH as [Hb Hdom].
    destruct c; tx_cases; simpl; try (split; assumption);
      (split; [try lia|]); intros id;
      rewrite ?lookup_insert_is_Some', Hdom; bool_hyps; try lia.
Qed.

(** X5: in every reachable ledger [totalAccounts] lies between 0 and
    2^256 - 1, and the ids whose slot of [accounts] was ever written
    are exactly 1 .. [totalAccounts]. *)
Theorem accounts_are_1_to_total s :
  reachable s ->
  0 <= totalAccounts s <= UINT256_MAX
  /\ dom (accounts s) = (list_to_set (seqZ 1 (totalAccounts s)) : gset Z).
Proof.
  intros Hs. destruct (reachable_counter_and_slots s Hs) as [Hb Hslots].
  split; [exact Hb|]. apply set_eq. intros id.
  rewrite elem_of_dom, elem_of_list_to_set, elem_of_seqZ, Hslots. lia.
Qed.

Lemma accounts_are_1_to_total_witness :
  0 <= totalAccounts (fst (run Scenario.ledger1 Scenario.busy_trace)) <= UINT256_MAX
  /\ dom (accounts (fst (run Scenario.ledger1 Scenario.busy_trace)))
     = (list_to_set
          (seqZ 1 (totalAccounts (fst (run Scenario.ledger1 Scenario.busy_trace))))
        : gset Z).
Proof.
  apply accounts_are_1_to_total, busy_reachable.
Defined.

(** X6: while the counter can still grow, [createAccount] by any caller
    succeeds and returns [totalAccounts + 1]; afterwards
    [getTotalAccounts] returns that id, [getAccountInfo] on it returns
    active, the block timestamp, the caller and the hash of the type
    label, [getUserAccounts] of the caller ends with it,
    [getAccountAudits] on it succeeds, and the creator and the auditor
    read back the hash of the balance bytes and the hash of
    [uint256(0)]. *)
Theorem createAccount_then_read env s b t :
  0 <= totalAccounts s ->
  totalAccounts s + 1 <= UINT256_MAX ->
  exists s',
    call env (CreateAccount b t) s = (s', Return (VUint (totalAccounts s + 1)))
    /\ forall env',
         call env' GetTotalAccounts s' = (s', Return (VUint (totalAccounts s + 1)))
         /\ call env' (GetAccountInfo (totalAccounts s + 1)) s'
            = (s', Return (VAccountInfo (true, block_timestamp env, msg_sender env,
                                         keccak256 (encode_string t))))
         /\ call env' (GetUserAccounts (msg_sender env)) s'
            = (s', Return (VUintArray
                             ((userAccounts s !!! msg_sender env)
                              ++ [totalAccounts s + 1])))
         /\ call env' (GetAccountAudits (totalAccounts s + 1)) s'
            = (s', Return (VUintArray (accountAudits s !!! (totalAccounts s + 1))))
         /\ (msg_sender env' = msg_sender env \/ msg_sender env' = auditor s ->
             call env' (GetEncryptedBalance (totalAccounts s + 1)) s'
             = (s', Return (VBytes32 (keccak256 b)))
             /\ call env' (GetEncryptedTransactions (totalAccounts s + 1)) s'
                = (s', Return (VBytes32 (keccak256 (encode_uint256 0))))).
Proof.
  intros Hn Hmax. apply Z.leb_le in Hmax.
  assert (Hv : (0 <? totalAccounts s + 1) && (totalAccounts s + 1 <=? totalAccounts s + 1)
               = true).
  { apply andb_true_iff. split; [apply Z.ltb_lt | apply Z.leb_le]; lia. }
  eexists. split.
  { tx_unfold. rewrite Hmax. reflexivity. }
  intros env'. repeat split.
  - tx_unfold. simpl. rewrite Hv. simpl. rewrite !lookup_total_insert_eq. reflexivity.
  - tx_unfold. simpl. rewrite lookup_total_insert_eq. reflexivity.
  - tx_unfold. simpl. rewrite Hv. reflexivity.
  - tx_unfold. simpl. rewrite Hv. simpl. rewrite !lookup_total_insert_eq. simpl.
    destruct H as [-> | ->]; rewrite Z.eqb_refl, ?orb_true_r; reflexivity.
  - tx_unfold. simpl. rewrite Hv. simpl. rewrite !lookup_total_insert_eq. simpl.
    destruct H as [-> | ->]; rewrite Z.eqb_refl, ?orb_true_r; reflexivity.
Qed.

(** The stranger creates the second account of the concrete run. *)
Lemma createAccount_then_read_witness :
  exists s',
    call (Scenario.in_block 105 Scenario.stranger)
         (CreateAccount Scenario.bytes_1500 "company") Scenario.ledger2
      = (s', Return (VUint 2))
    /\ call (Scenario.in_block 106 Scenario.theOwner) (GetAccountInfo 2) s'
       = (s', Return (VAccountInfo (true, 105, Scenario.stranger,
                                    keccak256 (encode_string "company"))))
    /\ call (Scenario.in_block 106 Scenario.theOwner)
            (GetUserAccounts Scenario.stranger) s'
       = (s', Return (VUintArray [2])).
Proof.
  destruct (createAccount_then_read
              (Scenario.in_block 105 Scenario.stranger) Scenario.ledger2
              Scenario.bytes_1500 "company")
    as (s' & Hcall & Hread).
  - vm_compute. discriminate.
  - vm_compute. discriminate.
  - exists s'. split; [exact Hcall|].
    destruct (Hread (Scenario.in_block 106 Scenario.theOwner))
      as (_ & Hinfo & Huser & _).
    split; [exact Hinfo | exact Huser].
Defined.

(** X7: in a reachable ledger [createAccount] fails exactly when
    [totalAccounts] is 2^256 - 1, with the arithmetic panic; otherwise
    it returns [totalAccounts + 1], whoever calls and whatever the
    inputs. *)
Theorem createAccount_fails_only_when_full env s b t :
  reachable s ->
  (snd (call env (CreateAccount b t) s) = Revert ArithmeticOverflow
   <-> totalAccounts s = UINT256_MAX)
  /\ (totalAccounts s <> UINT256_MAX ->
      snd (call env (CreateAccount b t) s) = Return (VUint (totalAccounts s + 1))).
Proof.
  intros Hs. destruct (reachable_counter_and_slots s Hs) as [Hb _].
  tx_unfold. destruct (totalAccounts s + 1 <=? UINT256_MAX) eqn:E; cbv beta iota.
  - apply Z.leb_le in E. split; [split; [discriminate | lia] | reflexivity].
  - apply Z.leb_gt in E. split; [split; [lia | reflexivity] | lia].
Qed.

Lemma createAccount_fails_only_when_full_witness :
  snd (call (Scenario.in_block 105 Scenario.stranger) (CreateAccount [] "")
            Scenario.ledger2)
  = Return (VUint (totalAccounts Scenario.ledger2 + 1)).
Proof.
  apply (createAccount_fails_only_when_full
           (Scenario.in_block 105 Scenario.stranger) Scenario.ledger2 [] ""
           ledger2_reachable).
  vm_compute. discriminate.
Defined.

Lemma call_keeps_identity env c s id :
  validAccountId s id = true ->
  validAccountId (fst (call env c s)) id = true
  /\ accountOwner (accounts (fst (call env c s)) !!! id)
     = accountOwner (accounts s !!! id)
  /\ accountType (accounts (fst (call env c s)) !!! id)
     = accountType (accounts s !!! id).
Proof.
  intros Hv. apply validAccountId_bounds in Hv.
  rewrite validAccountId_bounds.
  destruct c as [b t|a b t|a t|k f|a|a|n|a|u|a|a|k|k|a| |];
    tx_cases; simpl; auto; bool_hyps;
    try (destruct (decide (a = id)) as [->|Hne];
         [ rewrite !lookup_total_insert_eq; simpl; auto
         | rewrite !lookup_total_insert_ne by exact Hne; auto ]).
  rewrite lookup_total_insert_ne by lia. split; [lia | auto].
Qed.

(** X8: an account id in range stays in range, and its stored owner
    and account type are the same after any trace of calls. *)
Theorem owner_and_type_never_change s id tr :
  validAccountId s id = true ->
  validAccountId (fst (run s tr)) id = true
  /\ accountOwner (accounts (fst (run s tr)) !!! id)
     = accountOwner (accounts s !!! id)
  /\ accountType (accounts (fst (run s tr)) !!! id)
     = accountType (accounts s !!! id).
Proof.
  revert s. induction tr as [|[env c] tr IH]; intros s Hv; [auto|].
  rewrite run_cons. cbn [fst].
  destruct (call_keeps_identity env c s id Hv) as (Hv' & <- & <-).
  apply IH, Hv'.
Qed.

Lemma owner_and_type_never_change_witness :
  validAccountId (fst (run Scenario.ledger1 Scenario.busy_trace)) 1 = true
  /\ accountOwner (accounts (fst (run Scenario.ledger1 Scenario.busy_trace)) !!! 1)
     = accountOwner (accounts Scenario.ledger1 !!! 1)
  /\ accountType (accounts (fst (run Scenario.ledger1 Scenario.busy_trace)) !!! 1)
     = accountType (accounts Scenario.ledger1 !!! 1).
Proof.
  apply owner_and_type_never_change. vm_compute. reflexivity.
Defined.

(** X9: a call by anyone but the owner of an account in range, whatever
    the function and whether it succeeds or not, leaves that account's
    record as it was. *)
Theorem only_owner_changes_account env c s id :
  validAccountId s id = true ->
  msg_sender env <> accountOwner (accounts s !!! id) ->
  accounts (fst (call env c s)) !! id = accounts s !! id.
Proof.
  intros Hv Hne. apply validAccountId_bounds in Hv.
  destruct c as [b t|a b t|a t|k f|a|a|n|a|u|a|a|k|k|a| |];
    tx_cases; simpl; auto; bool_hyps;
    try (rewrite !lookup_insert_ne; [reflexivity|congruence..]).
  apply lookup_insert_ne. lia.
Qed.

(** The auditor tries to deactivate account 1. *)
Lemma only_owner_changes_account_witness :
  accounts (fst (call (Scenario.in_block 103 Scenario.theAuditor)
                      (DeactivateAccount 1) Scenario.ledger2)) !! 1
  = accounts Scenario.ledger2 !! 1.
Proof.
  apply only_owner_changes_account.
  - vm_compute. reflexivity.
  - vm_compute. discriminate.
Defined.

(** X10: [updateBalance] by the owner of an active account in range
    succeeds; it stores the hash of the new bytes, chains the
    transaction commitment, sets [lastUpdated] to the block timestamp
    and keeps [isActive], the owner and the type; it changes no other
    account, no audit record, no index, not the auditor and not the
    counter; and the owner and the auditor then read the new hash. *)
Theorem updateBalance_then_read env s id b t :
  validAccountId s id = true ->
  msg_sender env = accountOwner (accounts s !!! id) ->
  isActive (accounts s !!! id) = true ->
  exists s',
    call env (UpdateBalance id b t) s = (s', Return VUnit)
    /\ accounts s' !!! id
       = {| encryptedBalance := keccak256 b;
            encryptedTransactions :=
              keccak256 (encode_bytes32 (encryptedTransactions (accounts s !!! id))
                         ++ encode_uint256 1);
            isActive := true;
            lastUpdated := block_timestamp env;
            accountOwner := msg_sender env;
            accountType := accountType (accounts s !!! id) |}
    /\ (forall j, j <> id -> accounts s' !! j = accounts s !! j)
    /\ auditRecords s' = auditRecords s
    /\ userAccounts s' = userAccounts s
    /\ accountAudits s' = accountAudits s
    /\ auditor s' = auditor s
    /\ totalAccounts s' = totalAccounts s
    /\ (forall env',
          msg_sender env' = msg_sender env \/ msg_sender env' = auditor s ->
          call env' (GetEncryptedBalance id) s'
          = (s', Return (VBytes32 (keccak256 b)))).
Proof.
  intros Hv Ho Ha. unfold validAccountId in Hv.
  eexists. split.
  { tx_unfold. rewrite Hv, Ho, Z.eqb_refl, Ha. reflexivity. }
  simpl. rewrite !lookup_total_insert_eq. simpl.
  split.
  { unfold set_encryptedTransactions, set_lastUpdated, set_encryptedBalance.
    simpl. rewrite Ha, Ho. reflexivity. }
  split.
  { intros j Hj. rewrite !lookup_insert_ne by congruence. reflexivity. }
  repeat (split; [reflexivity|]).
  intros env' Hwho. tx_unfold. simpl. rewrite Hv. simpl.
  rewrite !lookup_total_insert_eq. simpl.
  destruct Hwho as [-> | ->]; rewrite ?Ho, ?Z.eqb_refl, ?orb_true_r; reflexivity.
Qed.

(** The owner of account 1 updates its balance; the auditor reads the
    new commitment. *)
Lemma updateBalance_then_read_witness :
  exists s',
    call (Scenario.in_block 102 Scenario.theOwner)
         (UpdateBalance 1 Scenario.bytes_1500 "deposit") Scenario.ledger2
      = (s', Return VUnit)
    /\ call (Scenario.in_block 103 Scenario.theAuditor) (GetEncryptedBalance 1) s'
       = (s', Return (VBytes32 (keccak256 Scenario.bytes_1500))).
Proof.
  destruct (updateBalance_then_read
              (Scenario.in_block 102 Scenario.theOwner) Scenario.ledger2 1
              Scenario.bytes_1500 "deposit")
    as (s' & Hcall & _ & _ & _ & _ & _ & _ & _ & Hread);
    try (vm_compute; reflexivity).
  exists s'. split; [exact Hcall|].
  apply Hread. right. vm_compute. reflexivity.
Defined.

(** ** The transaction commitment *)

Lemma updates_logged_app id evs e :
  updates_logged id (evs ++ [e])
  = (updates_logged id evs
     + match e with
       | BalanceUpdated i _ _ => if (i =? id)%Z then 1 else 0
       | _ => 0
       end)%nat.
Proof.
  unfold updates_logged. rewrite List.filter_app, length_app. f_equal.
  destruct e as [| i ts h | | |]; simpl; try reflexivity.
  destruct (i =? id); reflexivity.
Qed.

Lemma tx_chain_S n :
  tx_chain (S n) = keccak256 (encode_bytes32 (tx_chain n) ++ encode_uint256 1).
Proof. reflexivity. Qed.

(** The commitment of an account in range follows the log, and the log
    holds no update of an id out of range. *)
Lemma reachable_tx_chain s :
  reachable s ->
  forall id,
    (1 <= id <= totalAccounts s ->
     encryptedTransactions (accounts s !!! id)
     = tx_chain (updates_logged id (events s)))
    /\ (~ (1 <= id <= totalAccounts s) -> updates_logged id (events s) = 0%nat).
Proof.
  induction 1 as [env|env c s Hs IH]; intros id.
  - split; [|reflexivity]. simpl. lia.
  - pose proof (reachable_totalAccounts_nonneg s Hs) as Hn.
    destruct (IH id) as [IH1 IH2].
    destruct c as [b t|a b t|a t|k f|a|a|n|a|u|a|a|k|k|a| |];
      tx_cases; try (split; assumption); simpl;
      rewrite ?updates_logged_app, ?Nat.add_0_r; bool_hyps.
    + (* createAccount *)
      split; intros Hv.
      * destruct (decide (totalAccounts s + 1 = id)) as [<-|Hne].
        -- rewrite lookup_total_insert_eq. simpl. rewrite IH2 by lia. reflexivity.
        -- rewrite lookup_total_insert_ne by exact Hne. apply IH1. lia.
      * apply IH2. lia.
    + (* updateBalance *)
      destruct (Z.eqb_spec a id) as [->|Hne].
      * split; intros Hv; [|lia].
        rewrite !lookup_total_insert_eq. simpl. rewrite Nat.add_1_r, tx_chain_S.
        rewrite IH1 by exact Hv. reflexivity.
      * rewrite Nat.add_0_r. rewrite !lookup_total_insert_ne by exact Hne.
        split; assumption.
    + (* initiateAudit *) split; assumption.
    + (* completeAudit *) split; assumption.
    + (* deactivateAccount *)
      split; [|assumption]. intros Hv.
      destruct (decide (a = id)) as [->|Hne].
      * rewrite lookup_total_insert_eq. simpl. apply IH1, Hv.
      * rewrite lookup_total_insert_ne by exact Hne. apply IH1, Hv.
    + (* reactivateAccount *)
      split; [|assumption]. intros Hv.
      destruct (decide (a = id)) as [->|Hne].
      * rewrite lookup_total_insert_eq. simpl. apply IH1, Hv.
      * rewrite lookup_total_insert_ne by exact Hne. apply IH1, Hv.
    + (* transferAuditor *) split; assumption.
Qed.

(** X11: in every reachable ledger the [encryptedTransactions] of an
    account in range is the hash of [uint256(0)] chained once per
    [BalanceUpdated] event of that account, and that is what
    [getEncryptedTransactions] returns to the auditor: the commitment
    depends on how many updates there were and on nothing else. *)
Theorem transactions_commitment_counts_updates env s id :
  reachable s ->
  validAccountId s id = true ->
  msg_sender env = auditor s ->
  encryptedTransactions (accounts s !!! id)
  = tx_chain (updates_logged id (events s))
  /\ call env (GetEncryptedTransactions id) s
     = (s, Return (VBytes32 (tx_chain (updates_logged id (events s))))).
Proof.
  intros Hs Hv HA.
  assert (E : encryptedTransactions (accounts s !!! id)
              = tx_chain (updates_logged id (events s))).
  { apply (reachable_tx_chain s Hs id), validAccountId_bounds, Hv. }
  split; [exact E|].
  unfold validAccountId in Hv. tx_unfold.
  rewrite Hv, HA, Z.eqb_refl, orb_true_r, E. reflexivity.
Qed.

(** Account 1 after one update: one link of the chain. *)
Lemma transactions_commitment_counts_updates_witness :
  updates_logged 1 (events Scenario.ledger2u) = 1%nat
  /\ encryptedTransactions (accounts Scenario.ledger2u !!! 1)
     = tx_chain (updates_logged 1 (events Scenario.ledger2u))
  /\ call (Scenario.in_block 103 Scenario.theAuditor) (GetEncryptedTransactions 1)
          Scenario.ledger2u
     = (Scenario.ledger2u,
        Return (VBytes32 (tx_chain (updates_logged 1 (events Scenario.ledger2u))))).
Proof.
  split; [vm_compute; reflexivity|].
  apply (transactions_commitment_counts_updates
           (Scenario.in_block 103 Scenario.theAuditor) Scenario.ledger2u 1
           ledger2u_reachable);
    vm_compute; reflexivity.
Defined.

(** ** Reading the commitments *)

(** X12: on an account id in range, active or not,
    [getEncryptedBalance] and [getEncryptedTransactions] return the
    stored hashes to the owner and to the auditor and fail, each with
    its own message (Unauthorized), for every other caller;
    [getAccountInfo] answers every caller. *)
Theorem encrypted_getters_access env s id :
  validAccountId s id = true ->
  (msg_sender env = accountOwner (accounts s !!! id) \/ msg_sender env = auditor s ->
   call env (GetEncryptedBalance id) s
   = (s, Return (VBytes32 (encryptedBalance (accounts s !!! id))))
   /\ call env (GetEncryptedTransactions id) s
      = (s, Return (VBytes32 (encryptedTransactions (accounts s !!! id)))))
  /\ (msg_sender env <> accountOwner (accounts s !!! id) ->
      msg_sender env <> auditor s ->
      call env (GetEncryptedBalance id) s = (s, Revert BalanceAccessDenied)
      /\ call env (GetEncryptedTransactions id) s = (s, Revert TransactionsAccessDenied)
      /\ error_kind BalanceAccessDenied = Unauthorized
      /\ error_kind TransactionsAccessDenied = Unauthorized)
  /\ call env (GetAccountInfo id) s
     = (s, Return (VAccountInfo (isActive (accounts s !!! id),
                                 lastUpdated (accounts s !!! id),
                                 accountOwner (accounts s !!! id),
                                 accountType (accounts s !!! id)))).
Proof.
  intros Hv. unfold validAccountId in Hv. split; [|split].
  - intros Hwho. split; tx_unfold; rewrite Hv;
      destruct Hwho as [-> | ->]; rewrite Z.eqb_refl, ?orb_true_r; reflexivity.
  - intros Ho Ha. apply Z.eqb_neq in Ho, Ha.
    repeat split; tx_unfold; rewrite Hv, Ho, Ha; reflexivity.
  - tx_unfold. rewrite Hv. reflexivity.
Qed.

(** The stranger asks for the commitments of the deactivated account 1,
    and for its public information. *)
Lemma encrypted_getters_access_witness :
  call (Scenario.in_block 104 Scenario.stranger) (GetEncryptedBalance 1)
       Scenario.ledger2d
    = (Scenario.ledger2d, Revert BalanceAccessDenied)
  /\ call (Scenario.in_block 104 Scenario.stranger) (GetEncryptedTransactions 1)
          Scenario.ledger2d
     = (Scenario.ledger2d, Revert TransactionsAccessDenied)
  /\ call (Scenario.in_block 104 Scenario.stranger) (GetAccountInfo 1)
          Scenario.ledger2d
     = (Scenario.ledger2d,
        Return (VAccountInfo (isActive (accounts Scenario.ledger2d !!! 1),
                              lastUpdated (accounts Scenario.ledger2d !!! 1),
                              accountOwner (accounts Scenario.ledger2d !!! 1),
                              accountType (accounts Scenario.ledger2d !!! 1)))).
Proof.
  destruct (encrypted_getters_access
              (Scenario.in_block 104 Scenario.stranger) Scenario.ledger2d 1)
    as (_ & Hdenied & Hinfo).
  - vm_compute. reflexivity.
  - destruct Hdenied as (Hb & Ht & _).
    + vm_compute. discriminate.
    + vm_compute. discriminate.
    + split; [exact Hb|]. split; [exact Ht | exact Hinfo].
Defined.

(** ** Ids out of range *)

(** X13: on an account id that is 0 or above [totalAccounts], every
    function guarded by [validAccount] fails with "invalid account ID"
    for every caller, before the ownership or activity checks;
    [initiateAudit] fails so for the auditor and with "caller is not
    the auditor" for anyone else. *)
Theorem out_of_range_ids_rejected env s id :
  validAccountId s id = false ->
  (forall b t, call env (UpdateBalance id b t) s = (s, Revert InvalidAccountId))
  /\ call env (DeactivateAccount id) s = (s, Revert InvalidAccountId)
  /\ call env (ReactivateAccount id) s = (s, Revert InvalidAccountId)
  /\ call env (GetAccountInfo id) s = (s, Revert InvalidAccountId)
  /\ call env (GetEncryptedBalance id) s = (s, Revert InvalidAccountId)
  /\ call env (GetEncryptedTransactions id) s = (s, Revert InvalidAccountId)
  /\ call env (GetAccountAudits id) s = (s, Revert InvalidAccountId)
  /\ (forall t, call env (InitiateAudit id t) s
                = (s, Revert (if msg_sender env =? auditor s
                              then InvalidAccountId else NotAuditor)))
  /\ error_kind InvalidAccountId = InvalidAccount.
Proof.
  intros Hv. unfold validAccountId in Hv.
  repeat split; intros; tx_unfold; rewrite Hv; try reflexivity.
  destruct (msg_sender env =? auditor s); reflexivity.
Qed.

(** The ids 0 and 2 on the ledger with one account. *)
Lemma out_of_range_ids_rejected_witness :
  call (Scenario.in_block 104 Scenario.theOwner) (GetAccountInfo 0) Scenario.ledger2
    = (Scenario.ledger2, Revert InvalidAccountId)
  /\ call (Scenario.in_block 104 Scenario.theOwner) (DeactivateAccount 2)
          Scenario.ledger2
     = (Scenario.ledger2, Revert InvalidAccountId).
Proof.
  split.
  - apply (out_of_range_ids_rejected
             (Scenario.in_block 104 Scenario.theOwner) Scenario.ledger2 0).
    vm_compute. reflexivity.
  - apply (out_of_range_ids_rejected
             (Scenario.in_block 104 Scenario.theOwner) Scenario.ledger2 2).
    vm_compute. reflexivity.
Defined.

(** ** The log and the indexes *)

Lemma call_events_extend env c s :
  exists k, events (fst (call env c s)) = events s ++ k /\ (length k <= 1)%nat.
Proof.
  destruct c; tx_cases; simpl;
    first [ exists []; rewrite app_nil_r; split; [reflexivity | simpl; lia]
          | eexists [_]; split; [reflexivity | simpl; lia] ].
Qed.

(** X14: the log only grows: after any trace of calls the earlier log
    is a prefix of the later one, and every call adds at most one
    event. *)
Theorem events_append_only s tr :
  events s `prefix_of` events (fst (run s tr))
  /\ (length (events (fst (run s tr))) <= length (events s) + length tr)%nat.
Proof.
  revert s. induction tr as [|[env c] tr IH]; intros s.
  - simpl. split; [reflexivity | lia].
  - rewrite run_cons. cbn [fst length].
    destruct (call_events_extend env c s) as (k & Hk & Hlen).
    destruct (IH (fst (call env c s))) as [[k' Hk'] Hl].
    rewrite Hk in Hk', Hl. split.
    + exists (k ++ k'). rewrite Hk', app_assoc. reflexivity.
    + rewrite length_app in Hl. lia.
Qed.

Lemma seqZ_snoc n : 0 <= n -> seqZ 1 (n + 1) = seqZ 1 n ++ [n + 1].
Proof.
  intros Hn. rewrite seqZ_app by lia. f_equal.
  replace (1 + n) with (n + 1) by lia. reflexivity.
Qed.

Lemma owned_by_ext s s' u :
  totalAccounts s' = totalAccounts s ->
  (forall id, 1 <= id <= totalAccounts s ->
     accountOwner (accounts s' !!! id) = accountOwner (accounts s !!! id)) ->
  owned_by s' u = owned_by s u.
Proof.
  intros Ht Ho. unfold owned_by. rewrite Ht. apply List.filter_ext_in.
  intros id Hin. apply list_elem_of_In, elem_of_seqZ in Hin.
  rewrite Ho by lia. reflexivity.
Qed.

Lemma owned_by_fresh s acc u :
  List.filter
    (fun id => accountOwner (<[totalAccounts s + 1 := acc]> (accounts s) !!! id) =? u)
    (seqZ 1 (totalAccounts s))
  = owned_by s u.
Proof.
  unfold owned_by. apply List.filter_ext_in. intros id Hin.
  apply list_elem_of_In, elem_of_seqZ in Hin.
  rewrite lookup_total_insert_ne by lia. reflexivity.
Qed.

(** The per-owner index lists the accounts the table says are owned. *)
Lemma reachable_userAccounts s u :
  reachable s ->
  userAccounts s !!! u = owned_by s u.
Proof.
  intros Hs. revert u. induction Hs as [env|env c s Hs IH]; intros u.
  - simpl. rewrite lookup_total_empty. reflexivity.
  - pose proof (reachable_totalAccounts_nonneg s Hs) as Hn.
    assert (Hsame : forall s',
              totalAccounts s' = totalAccounts s ->
              userAccounts s' = userAccounts s ->
              (forall id, accountOwner (accounts s' !!! id)
                          = accountOwner (accounts s !!! id)) ->
              userAccounts s' !!! u = owned_by s' u).
    { intros s' Ht Hu Ho. rewrite Hu, IH. symmetry. apply owned_by_ext; auto. }
    destruct c as [b t|a b t|a t|k f|a|a|n|a|u'|a|a|k|k|a| |];
      tx_cases; try apply IH;
      try (apply Hsame; simpl; try reflexivity; intros id;
           destruct (decide (a = id)) as [->|Hne];
           [rewrite !lookup_total_insert_eq | rewrite !lookup_total_insert_ne by exact Hne];
           reflexivity).
    (* createAccount *)
    unfold owned_by. simpl. rewrite seqZ_snoc by exact Hn.
    rewrite List.filter_app. simpl. rewrite lookup_total_insert_eq. simpl.
    rewrite owned_by_fresh.
    destruct (Z.eqb_spec (msg_sender env) u) as [->|Hne].
    + rewrite lookup_total_insert_eq, IH. reflexivity.
    + rewrite lookup_total_insert_ne by exact Hne. rewrite app_nil_r. apply IH.
Qed.

(** X15: in every reachable ledger [getUserAccounts] never fails and
    returns, in increasing order, exactly the account ids in range
    whose stored owner is the given user. *)
Theorem userAccounts_is_the_owned_ids env s u :
  reachable s ->
  call env (GetUserAccounts u) s = (s, Return (VUintArray (owned_by s u)))
  /\ (forall id, id ∈ owned_by s u
                 <-> validAccountId s id = true
                     /\ accountOwner (accounts s !!! id) = u).
Proof.
  intros Hs. split.
  - tx_unfold. rewrite (reachable_userAccounts s u Hs). reflexivity.
  - intros id. unfold owned_by.
    rewrite list_elem_of_In, List.filter_In, <- list_elem_of_In, elem_of_seqZ.
    rewrite validAccountId_bounds, Z.eqb_eq. lia.
Qed.

(** After the busy trace the first owner holds account 1 and the
    stranger account 2. *)
Lemma userAccounts_is_the_owned_ids_witness :
  call (Scenario.in_block 107 Scenario.theAuditor) (GetUserAccounts Scenario.stranger)
       (fst (run Scenario.ledger1 Scenario.busy_trace))
    = (fst (run Scenario.ledger1 Scenario.busy_trace),
       Return (VUintArray
                 (owned_by (fst (run Scenario.ledger1 Scenario.busy_trace))
                           Scenario.stranger)))
  /\ owned_by (fst (run Scenario.ledger1 Scenario.busy_trace)) Scenario.stranger = [2].
Proof.
  split.
  - apply (userAccounts_is_the_owned_ids
             (Scenario.in_block 107 Scenario.theAuditor)
             (fst (run Scenario.ledger1 Scenario.busy_trace)) Scenario.stranger
             busy_reachable).
  - vm_compute. reflexivity.
Defined.

(** The per-account audit index follows the log. *)
Lemma reachable_accountAudits s a :
  reachable s ->
  accountAudits s !!! a = audits_logged a (events s).
Proof.
  intros Hs. revert a. unfold audits_logged.
  induction Hs as [env|env c s Hs IH]; intros a.
  - simpl. rewrite lookup_total_empty. reflexivity.
  - destruct c as [b t|a' b t|a' t|k f|a'|a'|n|a'|u|a'|a'|k|k|a'| |];
      tx_cases; simpl; rewrite ?flat_map_app; simpl;
      rewrite ?app_nil_r; auto.
    destruct (Z.eqb_spec a' a) as [->|Hne].
    + rewrite lookup_total_insert_eq, IH. reflexivity.
    + rewrite lookup_total_insert_ne by exact Hne. rewrite app_nil_r. apply IH.
Qed.

(** X16: in every reachable ledger [getAccountAudits] on an account id
    in range returns the audit ids of the [AuditInitiated] events of
    that account, oldest first, and on any other id fails with
    "invalid account ID". *)
Theorem accountAudits_is_the_logged_audits env s a :
  reachable s ->
  call env (GetAccountAudits a) s
  = (s, if validAccountId s a
        then Return (VUintArray (audits_logged a (events s)))
        else Revert InvalidAccountId).
Proof.
  intros Hs. tx_unfold. fold (validAccountId s a).
  rewrite (reachable_accountAudits s a Hs).
  destruct (validAccountId s a); reflexivity.
Qed.

(** Account 1 has two audits: the one of block 102 and the one the
    busy trace adds in block 103. *)
Lemma accountAudits_is_the_logged_audits_witness :
  call (Scenario.in_block 107 Scenario.stranger) (GetAccountAudits 1)
       (fst (run Scenario.ledger2 Scenario.busy_trace))
    = (fst (run Scenario.ledger2 Scenario.busy_trace),
       if validAccountId (fst (run Scenario.ledger2 Scenario.busy_trace)) 1
       then Return (VUintArray
                      (audits_logged 1
                         (events (fst (run Scenario.ledger2 Scenario.busy_trace)))))
       else Revert InvalidAccountId)
  /\ audits_logged 1 (events (fst (run Scenario.ledger2 Scenario.busy_trace)))
     = [Scenario.audit1; derive_auditId (Scenario.in_block 103 Scenario.theAuditor) 1].
Proof.
  split.
  - apply accountAudits_is_the_logged_audits, run_reachable, ledger2_reachable.
  - vm_compute. reflexivity.
Defined.

(** X17: in every reachable ledger the [AccountCreated] events, oldest
    first, list the ids 1 .. [totalAccounts], each with the owner and
    the account type that the account table stores for it. *)
Theorem log_lists_the_accounts s :
  reachable s ->
  creations_logged (events s)
  = map (fun id => (id, accountOwner (accounts s !!! id),
                    accountType (accounts s !!! id)))
        (seqZ 1 (totalAccounts s)).
Proof.
  unfold creations_logged.
  induction 1 as [env|env c s Hs IH]; [reflexivity|].
  pose proof (reachable_totalAccounts_nonneg s Hs) as Hn.
  assert (Hsame : forall s',
            totalAccounts s' = totalAccounts s ->
            (forall id, 1 <= id <= totalAccounts s ->
               accountOwner (accounts s' !!! id) = accountOwner (accounts s !!! id)
               /\ accountType (accounts s' !!! id) = accountType (accounts s !!! id)) ->
            map (fun id => (id, accountOwner (accounts s' !!! id),
                            accountType (accounts s' !!! id)))
                (seqZ 1 (totalAccounts s'))
            = map (fun id => (id, accountOwner (accounts s !!! id),
                              accountType (accounts s !!! id)))
                  (seqZ 1 (totalAccounts s))).
  { intros s' Ht Ho. rewrite Ht. apply map_ext_in. intros id Hin.
    apply list_elem_of_In, elem_of_seqZ in Hin.
    destruct (Ho id) as [-> ->]; [lia | reflexivity]. }
  destruct c as [b t|a b t|a t|k f|a|a|n|a|u|a|a|k|k|a| |];
    tx_cases; try exact IH;
    try (rewrite Hsame;
         [ simpl; rewrite ?flat_map_app; simpl; rewrite ?app_nil_r; exact IH
         | reflexivity
         | simpl; intros id _;
           try (destruct (decide (a = id)) as [->|Hne];
                [rewrite !lookup_total_insert_eq
                |rewrite !lookup_total_insert_ne by exact Hne]);
           simpl; auto ]).
  (* createAccount *)
  simpl. rewrite flat_map_app, IH, seqZ_snoc, map_app by exact Hn. simpl.
  rewrite lookup_total_insert_eq. simpl. f_equal.
  apply map_ext_in. intros id Hin.
  apply list_elem_of_In, elem_of_seqZ in Hin.
  rewrite lookup_total_insert_ne by lia. reflexivity.
Qed.

Lemma log_lists_the_accounts_witness :
  creations_logged (events (fst (run Scenario.ledger1 Scenario.busy_trace)))
  = map (fun id =>
           (id,
            accountOwner (accounts (fst (run Scenario.ledger1 Scenario.busy_trace)) !!! id),
            accountType (accounts (fst (run Scenario.ledger1 Scenario.busy_trace)) !!! id)))
        (seqZ 1 (totalAccounts (fst (run Scenario.ledger1 Scenario.busy_trace)))).
Proof.
  apply log_lists_the_accounts, busy_reachable.
Defined.

(** ** Audits, read back *)

(** X18: after a successful [initiateAudit] the auditor reads back,
    under the returned id, the audited account, the block timestamp,
    not completed and the hash of the audit type; [getAuditFlag]
    returns the default flag; and [getAccountAudits] of the account
    ends with the new id. *)
Theorem initiateAudit_then_read env a t s s' v :
  call env (InitiateAudit a t) s = (s', Return v) ->
  forall env',
    msg_sender env' = auditor s ->
    call env' (GetAuditRecord (derive_auditId env a)) s'
    = (s', Return (VAuditRecord (a, block_timestamp env, false,
                                 keccak256 (encode_string t))))
    /\ call env' (GetAuditFlag (derive_auditId env a)) s'
       = (s', Return (VBytes32 default_flag))
    /\ call env' (GetAccountAudits a) s'
       = (s', Return (VUintArray ((accountAudits s !!! a) ++ [derive_auditId env a]))).
Proof.
  intros H env' HA.
  apply initiateAudit_inv in H
    as (_ & Hv & _ & _ & Hrec & Hidx & _ & Haud & Htot & _).
  pose proof Hv as Hb. apply validAccountId_bounds in Hb.
  unfold validAccountId in Hv. rewrite <- Htot in Hv.
  assert (Hnz : (a =? 0) = false) by (apply Z.eqb_neq; lia).
  repeat split; tx_unfold; rewrite ?HA, ?Haud, ?Z.eqb_refl, ?Hrec, ?Hidx, ?Hv;
    rewrite ?lookup_total_insert_eq; simpl; rewrite ?Hnz; reflexivity.
Qed.

Lemma initiateAudit_then_read_witness :
  call (Scenario.in_block 103 Scenario.theAuditor)
       (GetAuditRecord (derive_auditId (Scenario.in_block 102 Scenario.theAuditor) 1))
       Scenario.ledger2
    = (Scenario.ledger2,
       Return (VAuditRecord
                 (1, block_timestamp (Scenario.in_block 102 Scenario.theAuditor),
                  false, keccak256 (encode_string "compliance"))))
  /\ call (Scenario.in_block 103 Scenario.theAuditor)
          (GetAuditFlag (derive_auditId (Scenario.in_block 102 Scenario.theAuditor) 1))
          Scenario.ledger2
     = (Scenario.ledger2, Return (VBytes32 default_flag))
  /\ call (Scenario.in_block 103 Scenario.theAuditor) (GetAccountAudits 1)
          Scenario.ledger2
     = (Scenario.ledger2,
        Return (VUintArray
                  ((accountAudits Scenario.ledger1 !!! 1)
                   ++ [derive_auditId (Scenario.in_block 102 Scenario.theAuditor) 1]))).
Proof.
  apply (initiateAudit_then_read
           (Scenario.in_block 102 Scenario.theAuditor) 1 "compliance"
           Scenario.ledger1 Scenario.ledger2 (VUint Scenario.audit1));
    vm_compute; reflexivity.
Defined.



(** X20: in every reachable ledger an audit record that is not
    completed holds the default flag, the hash of [uint256(0)]. *)
Theorem pending_audit_has_default_flag s k r :
  reachable s ->
  auditRecords s !! k = Some r ->
  isCompleted r = false ->
  discrepancyFlag r = default_flag.
Proof.
  intros Hs. revert k r. induction Hs as [env|env c s Hs IH]; intros k r.
  - simpl. rewrite lookup_empty. discriminate.
  - revert k r.
    destruct c as [b t|a b t|a t|k' f|a|a|n|a|u|a|a|k'|k'|a| |];
      tx_cases; simpl; try exact IH; intros k r Hk.
    + apply lookup_insert_Some in Hk as [[<- <-]|[Hne Hk]]; simpl;
        [reflexivity | apply (IH k r Hk)].
    + rewrite insert_insert_eq in Hk.
      apply lookup_insert_Some in Hk as [[<- <-]|[Hne Hk]]; simpl;
        [discriminate | apply (IH k r Hk)].
Qed.

Lemma pending_audit_has_default_flag_witness :
  discrepancyFlag (auditRecords Scenario.ledger2u !!! Scenario.audit1) = default_flag.
Proof.
  apply (pending_audit_has_default_flag Scenario.ledger2u Scenario.audit1
           (auditRecords Scenario.ledger2u !!! Scenario.audit1) ledger2u_reachable);
    vm_compute; reflexivity.
Defined.

(** X21: once its owner has deactivated an account, [initiateAudit] by
    the auditor fails with "account is not active" (InactiveAccount)
    and changes nothing; after the owner reactivates it,
    [initiateAudit] succeeds. *)
Theorem inactive_account_cannot_be_audited envO envA s a t :
  validAccountId s a = true ->
  msg_sender envO = accountOwner (accounts s !!! a) ->
  msg_sender envA = auditor s ->
  exists s1 s2 s3,
    call envO (DeactivateAccount a) s = (s1, Return VUnit)
    /\ call envA (InitiateAudit a t) s1 = (s1, Revert AccountNotActive)
    /\ call envO (ReactivateAccount a) s1 = (s2, Return VUnit)
    /\ call envA (InitiateAudit a t) s2 = (s3, Return (VUint (derive_auditId envA a)))
    /\ error_kind AccountNotActive = InactiveAccount.
Proof.
  intros Hv Ho HA. unfold validAccountId in Hv.
  do 3 eexists. split.
  { tx_unfold. rewrite Hv, Ho, Z.eqb_refl. reflexivity. }
  split.
  { tx_unfold. simpl. rewrite HA, Z.eqb_refl, Hv. simpl.
    rewrite lookup_total_insert_eq. reflexivity. }
  split.
  { tx_unfold. simpl. rewrite Hv. simpl. rewrite lookup_total_insert_eq. simpl.
    rewrite Ho, Z.eqb_refl. reflexivity. }
  split; [|reflexivity].
  tx_unfold. simpl. rewrite HA, Z.eqb_refl, Hv. simpl.
  rewrite !lookup_total_insert_eq. reflexivity.
Qed.

Lemma inactive_account_cannot_be_audited_witness :
  exists s1 s2 s3,
    call (Scenario.in_block 103 Scenario.theOwner) (DeactivateAccount 1)
         Scenario.ledger1 = (s1, Return VUnit)
    /\ call (Scenario.in_block 104 Scenario.theAuditor) (InitiateAudit 1 "security") s1
       = (s1, Revert AccountNotActive)
    /\ call (Scenario.in_block 103 Scenario.theOwner) (ReactivateAccount 1) s1
       = (s2, Return VUnit)
    /\ call (Scenario.in_block 104 Scenario.theAuditor) (InitiateAudit 1 "security") s2
       = (s3, Return (VUint (derive_auditId (Scenario.in_block 104 Scenario.theAuditor) 1)))
    /\ error_kind AccountNotActive = InactiveAccount.
Proof.
  apply inactive_account_cannot_be_audited; vm_compute; reflexivity.
Defined.

(** ** The audit id *)

Transparent keccak256 be_bytes UINT256_MAX.

Lemma land_255_range x : 0 <= Z.land x 255 < 256.
Proof.
  change 255 with (Z.ones 8). rewrite Z.land_ones by lia.
  apply Z.mod_pos_bound. reflexivity.
Qed.

Lemma be_of_le64_range w : 0 <= Keccak.be_of_le64 w < 2 ^ 64.
Proof.
  unfold Keccak.be_of_le64. cbn [seq fold_left].
  repeat match goal with
         | |- context [Z.land ?a 255] =>
             let H := fresh in
             pose proof (land_255_range a) as H;
             generalize dependent (Z.land a 255); intros
         end.
  change (2 ^ 64) with 18446744073709551616. lia.
Qed.

Lemma squeeze_fold_range ws acc n :
  0 <= acc < 2 ^ (64 * Z.of_nat n) ->
  0 <= fold_left (fun a w => a * 2 ^ 64 + Keccak.be_of_le64 w) ws acc
    < 2 ^ (64 * Z.of_nat (n + length ws)).
Proof.
  revert acc n. induction ws as [|w ws IH]; intros acc n Hacc.
  - simpl. rewrite Nat.add_0_r. exact Hacc.
  - cbn [fold_left length].
    replace (n + S (length ws))%nat with (S n + length ws)%nat by lia.
    apply IH. pose proof (be_of_le64_range w) as Hw.
    replace (64 * Z.of_nat (S n)) with (64 * Z.of_nat n + 64) by lia.
    rewrite Z.pow_add_r by lia. nia.
Qed.

(** Every digest is a 256-bit number. *)
Lemma keccak256_range data : 0 <= keccak256 data < 2 ^ 256.
Proof.
  unfold keccak256, Keccak.hash, Keccak.squeeze.
  set (st := Keccak.absorb _ _ _).
  pose proof (squeeze_fold_range (firstn 4 st) 0 0) as H.
  assert (Hlen : (length (firstn 4 st) <= 4)%nat) by (rewrite length_firstn; lia).
  destruct H as [H1 H2]; [simpl; lia|]. split; [exact H1|].
  eapply Z.lt_le_trans; [exact H2|]. apply Z.pow_le_mono_r; lia.
Qed.

(** X22: the audit id [initiateAudit] derives, and returns when it
    succeeds, is a value of [uint256], whatever the block, the account
    and the caller. *)
Theorem audit_id_is_uint256 env a :
  is_uint256 (derive_auditId env a)
  /\ (forall t s s' v,
        call env (InitiateAudit a t) s = (s', Return v) ->
        exists k, v = VUint k /\ is_uint256 k).
Proof.
  assert (Hr : is_uint256 (derive_auditId env a)).
  { unfold is_uint256, derive_auditId, UINT256_MAX.
    pose proof (keccak256_range
                  (encode_uint256 (block_timestamp env)
                   ++ encode_uint256 (block_prevrandao env)
                   ++ encode_uint256 a ++ encode_address (msg_sender env))). lia. }
  split; [exact Hr|]. intros t s s' v H.
  apply initiateAudit_inv in H as (_ & _ & _ & -> & _).
  eexists. split; [reflexivity | exact Hr].
Qed.

Lemma byteZ_byte_of_Z x : byteZ (byte_of_Z x) = x mod 256.
Proof.
  unfold byteZ, byte_of_Z.
  pose proof (Z.mod_pos_bound x 256 eq_refl) as Hb.
  destruct (Byte.of_N (Z.to_N (x mod 256))) as [b|] eqn:E.
  - apply Byte.to_of_N in E. rewrite E. apply Z2N.id. lia.
  - apply Byte.of_N_None_iff in E. lia.
Qed.

Lemma be_value_fold bs acc :
  fold_left (fun a b => a * 256 + byteZ b) bs acc
  = acc * 256 ^ Z.of_nat (length bs) + be_value bs.
Proof.
  unfold be_value. revert acc. induction bs as [|b bs IH]; intros acc.
  - simpl. lia.
  - cbn [fold_left length]. rewrite IH, (IH (0 * 256 + byteZ b)).
    rewrite Nat2Z.inj_succ, Z.pow_succ_r by lia. lia.
Qed.

Lemma length_be_bytes n x : length (be_bytes n x) = n.
Proof. induction n as [|n IH]; simpl; [reflexivity | rewrite IH; reflexivity]. Qed.

(** Reading back the [n] bytes of [x] gives [x] modulo [256 ^ n]. *)
Lemma be_value_be_bytes n x : be_value (be_bytes n x) = x mod 256 ^ Z.of_nat n.
Proof.
  induction n as [|n IH].
  - simpl. rewrite Z.mod_1_r. reflexivity.
  - cbn [be_bytes]. unfold be_value. cbn [fold_left].
    rewrite be_value_fold, IH, length_be_bytes, byteZ_byte_of_Z.
    rewrite Z.shiftr_div_pow2 by lia.
    replace (2 ^ (8 * Z.of_nat n)) with (256 ^ Z.of_nat n)
      by (change 256 with (2 ^ 8); rewrite <- Z.pow_mul_r by lia; reflexivity).
    rewrite Nat2Z.inj_succ, Z.pow_succ_r by lia.
    assert (Hp : 0 < 256 ^ Z.of_nat n) by (apply Z.pow_pos_nonneg; lia).
    rewrite (Z.mul_comm 256), Z.rem_mul_r by lia. lia.
Qed.

Lemma be_bytes_inj n x y :
  0 <= x < 256 ^ Z.of_nat n ->
  0 <= y < 256 ^ Z.of_nat n ->
  be_bytes n x = be_bytes n y -> x = y.
Proof.
  intros Hx Hy H. apply (f_equal be_value) in H.
  rewrite !be_value_be_bytes, !Z.mod_small in H by assumption. exact H.
Qed.

Opaque keccak256 be_bytes UINT256_MAX.

Lemma uint256_range x : is_uint256 x -> 0 <= x < 256 ^ Z.of_nat 32.
Proof.
  unfold is_uint256. intros H.
  assert (E : UINT256_MAX = 256 ^ Z.of_nat 32 - 1) by (vm_compute; reflexivity).
  lia.
Qed.

Lemma address_range x : is_address x -> 0 <= x < 256 ^ Z.of_nat 20.
Proof.
  unfold is_address. intros H.
  assert (E : 2 ^ 160 = 256 ^ Z.of_nat 20) by (vm_compute; reflexivity).
  lia.
Qed.

(** X23: the audit id is the hash of 116 bytes that determine the block
    timestamp, prevrandao, account id and caller: two derivations from
    values in range hash the same bytes only if all four values
    agree. *)
Theorem audit_preimage_injective env1 env2 a1 a2 :
  env_in_range env1 -> env_in_range env2 ->
  is_uint256 a1 -> is_uint256 a2 ->
  derive_auditId env1 a1 = keccak256 (audit_preimage env1 a1)
  /\ length (audit_preimage env1 a1) = 116%nat
  /\ (audit_preimage env1 a1 = audit_preimage env2 a2 -> env1 = env2 /\ a1 = a2).
Proof.
  intros (Hs1 & Ht1 & Hr1) (Hs2 & Ht2 & Hr2) Ha1 Ha2.
  split; [reflexivity|]. split.
  { unfold audit_preimage, encode_uint256, encode_address.
    rewrite !length_app, !length_be_bytes. reflexivity. }
  unfold audit_preimage, encode_uint256, encode_address. intros H.
  apply app_inj_1 in H as [Ht H]; [|rewrite !length_be_bytes; reflexivity].
  apply app_inj_1 in H as [Hr H]; [|rewrite !length_be_bytes; reflexivity].
  apply app_inj_1 in H as [Ha Hs]; [|rewrite !length_be_bytes; reflexivity].
  apply be_bytes_inj in Ht, Hr, Ha, Hs; auto using uint256_range, address_range.
  split; [|exact Ha].
  destruct env1, env2; simpl in *; subst; reflexivity.
Qed.

(** The derivations of blocks 102 and 103 hash different bytes. *)
Lemma audit_preimage_injective_witness :
  derive_auditId (Scenario.in_block 102 Scenario.theAuditor) 1
    = keccak256 (audit_preimage (Scenario.in_block 102 Scenario.theAuditor) 1)
  /\ length (audit_preimage (Scenario.in_block 102 Scenario.theAuditor) 1) = 116%nat
  /\ (audit_preimage (Scenario.in_block 102 Scenario.theAuditor) 1
      = audit_preimage (Scenario.in_block 103 Scenario.theAuditor) 1 ->
      Scenario.in_block 102 Scenario.theAuditor
      = Scenario.in_block 103 Scenario.theAuditor
      /\ 1 = 1).
Proof.
  apply audit_preimage_injective;
    unfold env_in_range, is_address, is_uint256;
    repeat split; vm_compute; (reflexivity || discriminate).
Defined.
